(** * Truth: the Zoon entity (zoon.py) and the process runner it drives

    A shallow embedding of [zoon.py] and of the runner exercised by
    [t/test_run.py].

    - Python objects live in a store: a [Zoon] object holds a reference to
      an [array.array("B")] object, and both are addressed by location, so
      that aliasing and in-place updates are visible.
    - Python exceptions are values of [exn]; a computation returns the
      store it reached together with an exception or a result.
    - The elements of an [array("B")] are unsigned chars, modelled as
      [Byte.byte]; reading one yields a Python int ([Z]) and writing one
      converts back, failing with [OverflowError] outside [0, 255]. *)

From Stdlib Require Import ZArith QArith Lia DecimalString.
From Stdlib Require Import Strings.Byte Strings.Ascii Strings.String.
From stdpp Require Import gmap strings list fin_maps.

Local Open Scope string_scope.
Local Open Scope list_scope.
Local Open Scope Z_scope.

(** ** Exceptions, values, store *)

Inductive exn :=
  | AssertionError
  | TypeError
  | IndexError
  | OverflowError
  | FileNotFoundError
  | IsADirectoryError
  | PermissionError
  | InvalidArgument   (* raised by [to_bytes], see there *)
  | Dangling.         (* a reference absent from the store: no Python
                         program reaches it, the model has to answer *)

Abbreviation loc := positive (only parsing).

(** What [Zoon.__init__] may receive: a [Path], a [str], a [Zoon], or a
    value of another type (an int stands for those). *)
Inductive pyval :=
  | PyPath (path : string)
  | PyStr (s : string)
  | PyZoon (z : loc)
  | PyInt (n : Z).

Record zoon_obj := ZoonObj {
  _initializer : pyval;
  __byteseq : loc
}.

Record world := World {
  arrays : gmap loc (list byte);
  zoons : gmap loc zoon_obj;
  files : gmap string (list byte)
}.

Definition set_arrays (f : gmap loc (list byte) → gmap loc (list byte))
    (w : world) : world :=
  {| arrays := f (arrays w); zoons := zoons w; files := files w |}.

Definition set_zoons (f : gmap loc zoon_obj → gmap loc zoon_obj)
    (w : world) : world :=
  {| arrays := arrays w; zoons := f (zoons w); files := files w |}.

Definition empty_world : world :=
  {| arrays := ∅; zoons := ∅; files := ∅ |}.

(** ** The computation monad: state, and an exception or a value *)

Definition M (A : Type) : Type := world → world * (exn + A).

Definition ret {A} (x : A) : M A := λ w, (w, inr x).

Definition raise {A} (e : exn) : M A := λ w, (w, inl e).

Definition bind {A B} (m : M A) (k : A → M B) : M B :=
  λ w, match m w with
       | (w', inl e) => (w', inl e)
       | (w', inr x) => k x w'
       end.

Declare Scope py_scope.
Delimit Scope py_scope with py.
Notation "x <- m ;; k" := (bind m (λ x, k))
  (at level 100, m at next level, right associativity) : py_scope.
Notation "m ;;; k" := (bind m (λ _, k))
  (at level 100, right associativity) : py_scope.
Local Open Scope py_scope.

Definition assert_ (b : bool) : M unit :=
  if b then ret tt else raise AssertionError.

Definition lift {A} (r : exn + A) : M A := λ w, (w, r).

(** ** [array.array("B")] *)

Definition byte_val (b : byte) : Z := Z.of_N (Byte.to_N b).

(** Storing a Python int in an unsigned char slot. *)
Definition byte_of_int (v : Z) : option byte :=
  if (0 <=? v) && (v <=? 255) then Byte.of_N (Z.to_N v) else None.

(** [array.array("B")]: a new, empty array object. *)
Definition array_new : M loc :=
  λ w, let a := fresh (dom (arrays w)) in
       (set_arrays <[a := []]> w, inr a).

(** The items of an array, as iteration over it yields them. *)
Definition array_items (a : loc) : M (list byte) :=
  λ w, match arrays w !! a with
       | Some bs => (w, inr bs)
       | None => (w, inl Dangling)
       end.

(** [a.extend(items)], [a.frombytes(items)], [a.fromfile(f, n)] all append
    to [a] in place. *)
Definition array_extend (a : loc) (items : list byte) : M unit :=
  λ w, match arrays w !! a with
       | Some bs => (set_arrays <[a := bs ++ items]> w, inr tt)
       | None => (w, inl Dangling)
       end.

(** [len(a)] *)
Definition array_len (a : loc) : M Z :=
  bs <- array_items a ;; ret (Z.of_nat (length bs)).

(** Python's index rule: a negative index counts from the end. *)
Definition norm_index (i n : Z) : Z := if i <? 0 then i + n else i.

(** [a[i]] *)
Definition array_getitem (a : loc) (i : Z) : M Z :=
  bs <- array_items a ;;
  let j := norm_index i (Z.of_nat (length bs)) in
  if (0 <=? j) && (j <? Z.of_nat (length bs)) then
    match bs !! Z.to_nat j with
    | Some b => ret (byte_val b)
    | None => raise IndexError
    end
  else raise IndexError.

(** [a[i] = v]: the index is checked first, then the value is converted. *)
Definition array_setitem (a : loc) (i : Z) (v : Z) : M unit :=
  bs <- array_items a ;;
  let j := norm_index i (Z.of_nat (length bs)) in
  if (0 <=? j) && (j <? Z.of_nat (length bs)) then
    match byte_of_int v with
    | Some b => λ w, (set_arrays <[a := <[Z.to_nat j := b]> bs]> w, inr tt)
    | None => raise OverflowError
    end
  else raise IndexError.

(** Slice bounds: [a[:k]] and [a[k:]] clamp [k] to [0, len(a)] after the
    negative-index adjustment; slicing never raises. *)
Definition slice_bound (k n : Z) : nat :=
  Z.to_nat (if k <? 0 then Z.max 0 (k + n) else Z.min k n).

(** [a[:stop]], a new array value. *)
Definition slice_to (bs : list byte) (stop : Z) : list byte :=
  take (slice_bound stop (Z.of_nat (length bs))) bs.

(** [a[start:]], a new array value. *)
Definition slice_from (bs : list byte) (start : Z) : list byte :=
  drop (slice_bound start (Z.of_nat (length bs))) bs.

(** [array.array("B", new_list)]: a new array object filled from an
    iterable of ints, each converted to an unsigned char. *)
Definition array_of_ints (new_list : list Z) : M loc :=
  match mapM byte_of_int new_list with
  | Some bs => a <- array_new ;; array_extend a bs ;;; ret a
  | None => a <- array_new ;; raise OverflowError
  end.

(** ** utils.py: the two helpers [zoon.py] imports *)

Module utils.

(** Modelled from the spec: [utils.toggle_bit_in_byte] is imported by
    [zoon.py] but its file is not among the sources. The spec has a point
    mutation invert one bit by XOR with the corresponding single-bit mask;
    [mutate] passes the bit's exponent first and the byte second. *)
Definition toggle_bit_in_byte (bit byte : Z) : Z :=
  Z.lxor byte (Z.shiftl 1 bit).

Definition is_bit_char (c : ascii) : bool :=
  Ascii.eqb c "0" || Ascii.eqb c "1".

Definition bit_of_char (c : ascii) : bool := Ascii.eqb c "1".

(** One byte from (up to) eight bits, the first one the most significant.
    [Byte.of_bits] takes the least significant bit first. *)
Definition pack8 (bits : list bool) : byte :=
  Byte.of_bits
    (nth 7 bits false, (nth 6 bits false, (nth 5 bits false,
    (nth 4 bits false, (nth 3 bits false, (nth 2 bits false,
    (nth 1 bits false, nth 0 bits false))))))).

Fixpoint pack (n : nat) (bits : list bool) : list byte :=
  match n with
  | O => []
  | S n' => pack8 (take 8 bits) :: pack n' (drop 8 bits)
  end.

(** Modelled from the spec: [utils.to_bytes] is imported by [zoon.py] but
    its file is not among the sources. The spec: a string over the alphabet
    {0,1} whose length is a multiple of 8 is packed, each consecutive group
    of 8 characters (most significant bit first) into one byte, in order;
    it fails with InvalidArgument if the alphabet constraint is violated or
    the length is not a multiple of 8. *)
Definition to_bytes (bitstring : string) : exn + list byte :=
  let cs := list_ascii_of_string bitstring in
  if forallb is_bit_char cs && (length cs mod 8 =? 0)%nat
  then inr (pack (length cs / 8) (map bit_of_char cs))
  else inl InvalidArgument.

End utils.
Import utils.

(** ** zoon.py: class Zoon *)

Module Zoon.

(** [set(initializer) <= {"0", "1"}] *)
Definition chars_subset_01 (initializer : string) : bool :=
  forallb is_bit_char (list_ascii_of_string initializer).

(** The [byteseq] property: the underlying array object itself. *)
Definition byteseq (self : loc) : M loc :=
  λ w, match zoons w !! self with
       | Some o => (w, inr (__byteseq o))
       | None => (w, inl Dangling)
       end.

(** [Zoon.__init__(self, initializer)]. The two attribute assignments that
    open the method are one store update here. *)
Definition __init__ (self : loc) (initializer : pyval) : M unit :=
  arr <- array_new ;;
  (λ w, (set_zoons <[self := {| _initializer := initializer;
                                __byteseq := arr |}]> w, inr tt)) ;;;
  match initializer with
  | PyPath path =>
      (* assert path.is_file(); fromfile reads path.stat().st_size items *)
      λ w, match files w !! path with
           | Some content => array_extend arr content w
           | None => (w, inl AssertionError)
           end
  | PyStr s =>
      assert_ (chars_subset_01 s) ;;;
      bs <- lift (to_bytes s) ;;
      array_extend arr bs
  | PyZoon other =>
      src <- byteseq other ;;
      items <- array_items src ;;
      array_extend arr items
  | PyInt _ => raise TypeError
  end.

(** The call [Zoon(initializer)]: a new object, initialised. *)
Definition new (initializer : pyval) : M loc :=
  λ w, let self := fresh (dom (zoons w)) in
       (__init__ self initializer ;;; ret self) w.

(** The [byteseq] setter: the attribute is rebound to a new array built
    from [new_list]. *)
Definition byteseq_setter (self : loc) (new_list : list Z) : M unit :=
  arr <- array_of_ints new_list ;;
  λ w, match zoons w !! self with
       | Some o => (set_zoons <[self := {| _initializer := _initializer o;
                                           __byteseq := arr |}]> w, inr tt)
       | None => (w, inl Dangling)
       end.

(** [len(zoon)]: the length in bits. *)
Definition __len__ (self : loc) : M Z :=
  arr <- byteseq self ;;
  n <- array_len arr ;;
  ret (n * 8).

(** [divmod(a, b)] for a positive [b]: floor division and its remainder. *)
Definition divmod (a b : Z) : Z * Z := (a / b, a mod b).

Definition mutate (self : loc) (position : Z) : M loc :=
  let '(byte, bit) := divmod position 8 in
  mutant <- new (PyZoon self) ;;
  (* the right-hand side is evaluated first, then the store *)
  arr <- byteseq mutant ;;
  old <- array_getitem arr byte ;;
  let toggled := toggle_bit_in_byte (7 - bit) old in
  arr' <- byteseq mutant ;;
  array_setitem arr' byte toggled ;;;
  ret mutant.

(** [byteseq[:start] + byteseq[stop:]] builds new arrays that nothing else
    refers to; they are values here, and the setter stores the result in a
    new array object. *)
Definition delete (self : loc) (start stop : Z) : M loc :=
  mutant <- new (PyZoon self) ;;
  byteseq_ <- byteseq mutant ;;
  items <- array_items byteseq_ ;;
  let new_list := slice_to items start ++ slice_from items stop in
  byteseq_setter mutant (map byte_val new_list) ;;;
  ret mutant.

End Zoon.

(** What it means for [e] to be a Zoon of the store [w] whose byte
    sequence is [bs]. *)
Definition entity (w : world) (e : loc) (bs : list byte) : Prop :=
  ∃ o, zoons w !! e = Some o ∧ arrays w !! __byteseq o = Some bs.

(** The bytes of [e], for evaluation. *)
Definition bytes_of (w : world) (e : loc) : option (list Z) :=
  match zoons w !! e with
  | Some o => match arrays w !! __byteseq o with
              | Some bs => Some (map byte_val bs)
              | None => None
              end
  | None => None
  end.

(** ** run.py: the process runner *)

(** [RunResult = Tuple[int, str, str, str]] (zoon.py):
    exit code, status kind, captured output, error detail. *)
Definition RunResult : Type := Z * string * string * string.

Definition RunResult_eqb (x y : RunResult) : bool :=
  let '(c1, k1, o1, e1) := x in
  let '(c2, k2, o2, e2) := y in
  (c1 =? c2) && String.eqb k1 k2 && String.eqb o1 o2 && String.eqb e1 e2.

(** The newline character of the Python literal ["\n"]. *)
Definition nl : string := String "010"%char EmptyString.

(** Python's [needle in hay] on strings. *)
Fixpoint str_in (needle hay : string) : bool :=
  String.prefix needle hay ||
  match hay with
  | EmptyString => false
  | String _ hay' => str_in needle hay'
  end.

Module run.

Inductive status_kind :=
  | success
  | called_process_error
  | file_not_found_error
  | timeout_expired.

(** The strings the tests compare the second field with. *)
Definition status_name (k : status_kind) : string :=
  match k with
  | success => "success"
  | called_process_error => "calledprocesserror"
  | file_not_found_error => "filenotfounderror"
  | timeout_expired => "timeoutexpired"
  end.

(** Modelled from the spec: the terminal states of the state machine of
    4.2, before classification. What the host does with a command line,
    were it left alone: the executable path it names cannot be found or
    launched, or the process runs for some seconds and exits with a status
    and its two captured streams, or it never exits. *)
Inductive behaviour :=
  | NoSuchFile (path : string)
  | Exits (after : Q) (code : Z) (out err : string)
  | Hangs.

Definition host : Type := string → behaviour.

(** The text of Python's [FileNotFoundError] for [path], as
    [test_run_badpath] spells it. *)
Definition enoent (path : string) : string :=
  ("[Errno 2] No such file or directory: '" ++ path ++ "': '" ++ path
     ++ "'")%string.

(** What the runner reports as error detail after a non-zero exit, from
    the command, the exit status and the two captured streams. *)
Definition failure_detail : Type := string → Z → string → string → string.

(** Modelled from the spec: [run.run] is called by [zoon.py] and tested by
    [t/test_run.py], but run.py is not among the sources. The four-way
    classification is the one of the spec (4.2, steps 2 to 5): exit status
    0, non-zero exit status, executable not found (code 2), timeout (code
    124), and so are all fields but one. The fourth field after a non-zero
    exit is the parameter [detail]: the spec has it empty, [test_run_fail]
    requires it to contain the message of [ls], and run.py, which decides,
    is absent. *)
Definition run (detail : failure_detail) (h : host) (command : string)
    (timeout : Q) : RunResult :=
  match h command with
  | NoSuchFile path => (2, status_name file_not_found_error, "", enoent path)
  | Exits after code out err =>
      if Qle_bool after timeout then
        if code =? 0 then (0, status_name success, out, "")
        else (code, status_name called_process_error, "",
              detail command code out err)
      else (124, status_name timeout_expired, "", "")
  | Hangs => (124, status_name timeout_expired, "", "")
  end.

(** The detail of the spec's step 3: always empty, the captured error
    stream being discarded. *)
Definition no_detail : failure_detail := λ _ _ _ _, "".

(** A detail that [test_run_fail] accepts: the captured error text. *)
Definition stderr_detail : failure_detail := λ _ _ _ err, err.

(** Modelled from the spec: the default of [run]'s [timeout] parameter,
    used by the tests that pass none. [Zoon.run] defaults to 1, and
    [test_run_timeout] needs less than the 2 seconds of its [sleep]. *)
Definition default_timeout : Q := 1%Q.

End run.

(** ** t/test_run.py *)

Module test_run.

Definition BADPATH : string := "/u/jane/me/tarzan".

(** [sys.platform] *)
Inductive platform_name := darwin | linux | other_platform.

Section tests.
(** The function under test, its [timeout] made explicit; [which] of
    utils.py; the platform the tests run on. *)
Variable run : string → Q → RunResult.
Variable which : string → string.
Variable platform : platform_name.

Definition test_run_test_true : bool :=
  RunResult_eqb (run (which "true") run.default_timeout)
                (0, "success", "", "").

Definition test_run_test_false : bool :=
  RunResult_eqb (run (which "false") run.default_timeout)
                (1, "calledprocesserror", "", "").

Definition test_run_fail : bool :=
  let '(code, kind, out, detail) :=
    run ("ls " ++ BADPATH)%string run.default_timeout in
  match platform with darwin | linux => true | other_platform => false end
  && match platform with
     | darwin => code =? 1
     | linux => code =? 2
     | other_platform => true
     end
  && (String.eqb kind "calledprocesserror" && String.eqb out "")
  && str_in ("No such file or directory" ++ nl)%string detail.

Definition test_run_badpath : bool :=
  RunResult_eqb
    (run BADPATH run.default_timeout)
    (2, "filenotfounderror", "",
     ("[Errno 2] No such file or directory: '" ++ BADPATH ++ "': '"
        ++ BADPATH ++ "'")%string).

Definition test_run_timeout : bool :=
  RunResult_eqb (run "sleep 2" run.default_timeout)
                (124, "timeoutexpired", "", "").

Definition test_run_no_timeout : bool :=
  RunResult_eqb (run "sleep 2" 3%Q) (0, "success", "", "").
End tests.

(** A Linux host for the commands of the tests. *)
Definition linux_host : run.host := λ command,
  if String.eqb command "/usr/bin/true" then
    run.Exits (1 # 100) 0 "" ""
  else if String.eqb command "/usr/bin/false" then
    run.Exits (1 # 100) 1 "" ""
  else if String.eqb command ("ls " ++ BADPATH)%string then
    run.Exits (1 # 100) 2 ""
      ("ls: cannot access '" ++ BADPATH ++ "': No such file or directory"
         ++ nl)%string
  else if String.eqb command "sleep 2" then
    run.Exits 2 0 "" ""
  else if String.eqb command "sh -c 'sleep 2; exit 3'" then
    run.Exits 2 3 "" ""
  else run.NoSuchFile command.

Definition linux_which (name : string) : string :=
  ("/usr/bin/" ++ name)%string.

End test_run.

(** The store reached by [Zoon(e)] from [w] when [e] is a Zoon of [w]
    holding [bs]: one new array, one new Zoon object, nothing else. *)
Definition copy_world (w : world) (e : loc) (bs : list byte) : world :=
  {| arrays := <[fresh (dom (arrays w)) := bs]> (arrays w);
     zoons := <[fresh (dom (zoons w)) :=
                  {| _initializer := PyZoon e;
                     __byteseq := fresh (dom (arrays w)) |}]> (zoons w);
     files := files w |}.

(** The store [w'] extends [w]: every object of [w] is in [w'], as it
    was. *)
Definition extends (w w' : world) : Prop :=
  arrays w ⊆ arrays w' ∧ zoons w ⊆ zoons w' ∧ files w = files w'.

(** The bytes between two byte positions. *)
Definition region {A} (from to : nat) (l : list A) : list A :=
  take (to - from) (drop from l).

(** The store reached by [e.delete(start, stop)] from [w], the mutant
    holding [new_list]: the array of the copy, the array the setter
    builds, one new Zoon object, nothing else. *)
Definition delete_world (w : world) (e : loc) (bs new_list : list byte)
    : world :=
  let w1 := copy_world w e bs in
  {| arrays := <[fresh (dom (arrays w1)) := new_list]> (arrays w1);
     zoons := <[fresh (dom (zoons w)) :=
                  {| _initializer := PyZoon e;
                     __byteseq := fresh (dom (arrays w1)) |}]> (zoons w);
     files := files w |}.

(** A new Zoon of [w'], with respect to [w]: neither the object nor its
    array is an object of [w]. *)
Definition new_in (w w' : world) (m : loc) : Prop :=
  zoons w !! m = None ∧
  ∃ o, zoons w' !! m = Some o ∧ arrays w !! __byteseq o = None.

(** A store with one Zoon, built from the bit literal ["01100001"] (the
    byte 0x61), and that Zoon. *)
Definition world_a : world :=
  fst (Zoon.new (PyStr "01100001") empty_world).

Definition zoon_a : loc := 1%positive.

(** ** zoon.py: the remaining methods of class Zoon *)

(** The machine the Zoons live on: the store, the permission bits of the
    files, and what the directories and the rights of the file system,
    which are not modelled further, make of two calls: what
    [open(path, "wb")] raises, if anything (FileNotFoundError when the
    parent directory is missing, IsADirectoryError on a directory,
    PermissionError), and what [chmod] of a path raises, if anything. *)
Record machine := Machine {
  store : world;
  modes : gmap string Z;
  open_error : string → option exn;
  chmod_error : string → option exn
}.

Definition with_store (s : machine) (w : world) : machine :=
  {| store := w; modes := modes s;
     open_error := open_error s; chmod_error := chmod_error s |}.

Definition with_modes (s : machine) (m : gmap string Z) : machine :=
  {| store := store s; modes := m;
     open_error := open_error s; chmod_error := chmod_error s |}.

(** [str(n)] for an int: its decimal digits, with a sign if negative. *)
Definition str_of_int (n : Z) : string :=
  NilZero.string_of_int (Z.to_int n).

(** The mode [0o755], rwxr-xr-x. *)
Definition mode_755 : Z := 7 * 64 + 5 * 8 + 5.

Module ZoonMethods.

(** [Zoon.__str__]: the body is a docstring only, the method returns
    [None]. *)
Definition __str__ (self : loc) : M (option string) := ret None.

(** [str(v)], as the f-string of [__repr__] formats its field: a [str] is
    itself, a [Path] its path, an int its digits; for a Zoon it is what
    [__str__] returns, and Python raises TypeError when that is not a
    string. *)
Definition str (v : pyval) : M string :=
  match v with
  | PyPath path => ret path
  | PyStr s => ret s
  | PyInt n => ret (str_of_int n)
  | PyZoon z =>
      r <- __str__ z ;;
      match r with
      | Some s => ret s
      | None => raise TypeError
      end
  end.

(** [Zoon.__repr__]: [f"zoon.Zoon('{self._initializer}')"] *)
Definition __repr__ (self : loc) : M string :=
  λ w, match zoons w !! self with
       | Some o =>
           (s <- str (_initializer o) ;;
            ret ("zoon.Zoon('" ++ s ++ "')")%string) w
       | None => (w, inl Dangling)
       end.

Definition set_file (path : string) (content : list byte) (w : world)
    : world :=
  {| arrays := arrays w; zoons := zoons w;
     files := <[path := content]> (files w) |}.

(** [Zoon.write]: [open(file_path, "wb")] raises, or creates the file or
    empties it; [tofile] then writes every item; the path is returned. *)
Definition write (self : loc) (file_path : string)
    : machine → machine * (exn + string) :=
  λ s, match open_error s file_path with
       | Some x => (s, inl x)
       | None =>
           let '(w, r) :=
             ((λ w, (set_file file_path [] w, inr tt)) ;;;
              arr <- Zoon.byteseq self ;;
              items <- array_items arr ;;
              (λ w, (set_file file_path
                       (default [] (files w !! file_path) ++ items) w,
                     inr tt)) ;;;
              ret file_path) (store s) in
           (with_store s w, r)
       end.

Section exec.
(** [run.run(command, timeout=timeout)], whatever it does to the machine
    and whatever it returns; [dir_path / name] of pathlib. *)
Variable runner : string → Z → machine → machine * (exn + RunResult).
Variable joinpath : string → string → string.

(** [Zoon.run] *)
Definition run (self : loc) (file_path cmd_args : string) (timeout : Z)
    : machine → machine * (exn + RunResult) :=
  λ s, if timeout >? 0 then
         match write self file_path s with
         | (s1, inl x) => (s1, inl x)
         | (s1, inr file_path) =>
             (* file_path.chmod(0o755) *)
             match chmod_error s1 file_path with
             | Some x => (s1, inl x)
             | None =>
                 let s2 :=
                   with_modes s1 (<[file_path := mode_755]> (modes s1)) in
                 let command := (file_path ++ " " ++ cmd_args)%string in
                 runner command timeout s2
             end
         end
       else (s, inl AssertionError).

(** [Zoon.mutate_and_run] *)
Definition mutate_and_run (self : loc) (position : Z) (dir_path : string)
    (cmd_args : string) (timeout : Z)
    : machine → machine * (exn + RunResult) :=
  λ s, match Zoon.mutate self position (store s) with
       | (w, inl x) => (with_store s w, inl x)
       | (w, inr mutant) =>
           let file_path := joinpath dir_path (str_of_int position) in
           run mutant file_path cmd_args timeout (with_store s w)
       end.
End exec.

End ZoonMethods.

(** A machine on which [world_a] lives: only paths under /tmp/ can be
    opened for writing, the others lack their directory; every [chmod]
    succeeds. *)
Definition machine_a : machine :=
  {| store := world_a;
     modes := ∅;
     open_error := λ path, if String.prefix "/tmp/" path then None
                           else Some FileNotFoundError;
     chmod_error := λ _, None |}.

(** * Properties *)

(** ** Bytes and bits *)

Lemma byte_val_range (b : byte) : 0 <= byte_val b <= 255.
Proof.
  unfold byte_val. pose proof (Byte.to_N_bounded b). lia.
Qed.

Lemma byte_of_int_val (b : byte) : byte_of_int (byte_val b) = Some b.
Proof.
  unfold byte_of_int. pose proof (byte_val_range b) as [H0 H1].
  apply Z.leb_le in H0, H1. rewrite H0, H1. simpl.
  unfold byte_val. rewrite N2Z.id. apply Byte.of_to_N.
Qed.

Lemma byte_of_int_Some (v : Z) :
  0 <= v <= 255 → ∃ b, byte_of_int v = Some b ∧ byte_val b = v.
Proof.
  intros [H0 H1]. unfold byte_of_int.
  apply Z.leb_le in H0 as E0. apply Z.leb_le in H1 as E1.
  rewrite E0, E1. simpl.
  destruct (Byte.of_N (Z.to_N v)) as [b|] eqn:E.
  - exists b. split; [reflexivity|].
    apply Byte.to_of_N in E. unfold byte_val. rewrite E. lia.
  - apply Byte.of_N_None_iff in E. lia.
Qed.

Lemma byte_of_int_inv (v : Z) (b : byte) :
  byte_of_int v = Some b → byte_val b = v.
Proof.
  unfold byte_of_int. intros H.
  destruct ((0 <=? v) && (v <=? 255)) eqn:E; [|discriminate].
  apply andb_prop in E as [E0 E1]. apply Z.leb_le in E0.
  apply Byte.to_of_N in H. unfold byte_val. rewrite H. lia.
Qed.

Lemma mapM_byte_of_int (bs : list byte) :
  mapM byte_of_int (map byte_val bs) = Some bs.
Proof.
  apply mapM_Some. induction bs as [|b bs IH]; simpl.
  - constructor.
  - constructor; [apply byte_of_int_val | exact IH].
Qed.

Lemma small_bits_high (v : Z) (n : Z) :
  0 <= v < 256 → 8 <= n → Z.testbit v n = false.
Proof.
  intros Hv Hn. rewrite <- (Z.mod_small v (2 ^ 8)) by (simpl; lia).
  apply Z.mod_pow2_bits_high. lia.
Qed.

Lemma bits_high_small (v : Z) :
  0 <= v → (∀ n, 8 <= n → Z.testbit v n = false) → v < 256.
Proof.
  intros Hv Hb.
  assert (v = v mod 2 ^ 8) as ->.
  { apply Z.bits_inj'. intros n Hn.
    destruct (Z_lt_le_dec n 8).
    - rewrite Z.mod_pow2_bits_low by lia. reflexivity.
    - rewrite Z.mod_pow2_bits_high by lia. apply Hb. lia. }
  apply Z.mod_pos_bound. reflexivity.
Qed.

Lemma toggle_bit_testbit (i v j : Z) :
  0 <= i → 0 <= j →
  Z.testbit (toggle_bit_in_byte i v) j = xorb (Z.testbit v j) (i =? j).
Proof.
  intros Hi Hj. unfold toggle_bit_in_byte.
  rewrite Z.lxor_spec, Z.shiftl_1_l, Z.pow2_bits_eqb by lia. reflexivity.
Qed.

Lemma toggle_bit_pow2 (i v : Z) :
  toggle_bit_in_byte i v = Z.lxor v (2 ^ i).
Proof. unfold toggle_bit_in_byte. rewrite Z.shiftl_1_l. reflexivity. Qed.

Lemma toggle_bit_range (i v : Z) :
  0 <= i <= 7 → 0 <= v <= 255 → 0 <= toggle_bit_in_byte i v <= 255.
Proof.
  intros Hi Hv.
  assert (0 <= toggle_bit_in_byte i v) as H0.
  { unfold toggle_bit_in_byte. apply Z.lxor_nonneg.
    rewrite Z.shiftl_1_l. split; intros _; [apply Z.pow_nonneg|]; lia. }
  split; [exact H0|].
  enough (toggle_bit_in_byte i v < 256) by lia.
  apply bits_high_small; [exact H0|].
  intros n Hn. rewrite toggle_bit_testbit by lia.
  rewrite small_bits_high by lia.
  destruct (Z.eqb_spec i n); [lia | reflexivity].
Qed.

Lemma toggle_bit_involutive (i v : Z) :
  toggle_bit_in_byte i (toggle_bit_in_byte i v) = v.
Proof.
  unfold toggle_bit_in_byte.
  rewrite Z.lxor_assoc, Z.lxor_nilpotent, Z.lxor_0_r. reflexivity.
Qed.

(** ** The store *)

Section store.
Context {A : Type}.
Implicit Types m : gmap positive A.

Lemma fresh_lookup m : m !! fresh (dom m) = None.
Proof. apply not_elem_of_dom. apply is_fresh. Qed.

Lemma fresh_ne m k x : m !! k = Some x → fresh (dom m) ≠ k.
Proof. intros Hk E. rewrite <- E, fresh_lookup in Hk. discriminate. Qed.

Lemma insert_fresh_subseteq m x : m ⊆ <[fresh (dom m) := x]> m.
Proof. apply insert_subseteq. apply fresh_lookup. Qed.
End store.

Lemma extends_refl (w : world) : extends w w.
Proof. repeat split; reflexivity. Qed.

Lemma extends_trans (w1 w2 w3 : world) :
  extends w1 w2 → extends w2 w3 → extends w1 w3.
Proof.
  intros (Ha & Hz & Hf) (Ha' & Hz' & Hf'). repeat split.
  - etransitivity; eassumption.
  - etransitivity; eassumption.
  - congruence.
Qed.

Lemma extends_entity (w w' : world) (e : loc) (bs : list byte) :
  extends w w' → entity w e bs → entity w' e bs.
Proof.
  intros (Ha & Hz & _) (o & Ho & Hbs). exists o. split.
  - eapply lookup_weaken; eassumption.
  - eapply lookup_weaken; eassumption.
Qed.

Lemma entity_inj (w : world) (e : loc) (bs bs' : list byte) :
  entity w e bs → entity w e bs' → bs = bs'.
Proof.
  intros (o & Ho & Hbs) (o' & Ho' & Hbs'). congruence.
Qed.

Lemma copy_world_extends (w : world) (e : loc) (bs : list byte) :
  extends w (copy_world w e bs).
Proof.
  repeat split; simpl; auto using insert_fresh_subseteq.
Qed.

Lemma copy_world_entity (w : world) (e : loc) (bs : list byte) :
  entity (copy_world w e bs) (fresh (dom (zoons w))) bs.
Proof.
  eexists. split; simpl.
  - apply lookup_insert_eq.
  - simpl. apply lookup_insert_eq.
Qed.

(** [Zoon(e)] copies: it returns a new object with a new array holding
    the bytes of [e]. *)
Lemma new_copy (w : world) (e : loc) (bs : list byte) :
  entity w e bs →
  Zoon.new (PyZoon e) w = (copy_world w e bs, inr (fresh (dom (zoons w)))).
Proof.
  intros (o & Ho & Hbs).
  unfold Zoon.new, Zoon.__init__, bind, array_new, Zoon.byteseq,
    array_items, array_extend, ret. simpl.
  rewrite lookup_insert_ne by (eapply fresh_ne; eassumption).
  rewrite Ho. simpl.
  rewrite lookup_insert_ne by (eapply fresh_ne; eassumption).
  rewrite Hbs. simpl. rewrite lookup_insert_eq. simpl.
  unfold copy_world, set_arrays, set_zoons. simpl.
  rewrite insert_insert_eq. reflexivity.
Qed.

Lemma byte_val_inj (x y : byte) : byte_val x = byte_val y → x = y.
Proof.
  intros E. pose proof (byte_of_int_val x) as Hx.
  rewrite E, byte_of_int_val in Hx. congruence.
Qed.

(** ** Array accesses *)

Lemma array_getitem_ok (w : world) (a : loc) (bs : list byte) (i : Z)
    (b : byte) :
  arrays w !! a = Some bs → 0 <= i → bs !! Z.to_nat i = Some b →
  array_getitem a i w = (w, inr (byte_val b)).
Proof.
  intros Ha Hi Hb. apply lookup_lt_Some in Hb as Hlt.
  unfold array_getitem, bind, array_items, norm_index. rewrite Ha.
  destruct (Z.ltb_spec i 0); [lia|].
  destruct (Z.leb_spec 0 i); [|lia].
  destruct (Z.ltb_spec i (Z.of_nat (length bs))); [|lia].
  simpl. rewrite Hb. reflexivity.
Qed.

Lemma array_getitem_beyond (w : world) (a : loc) (bs : list byte) (i : Z) :
  arrays w !! a = Some bs → Z.of_nat (length bs) <= i →
  array_getitem a i w = (w, inl IndexError).
Proof.
  intros Ha Hi.
  unfold array_getitem, bind, array_items, norm_index. rewrite Ha.
  destruct (Z.ltb_spec i 0); [lia|].
  destruct (Z.ltb_spec i (Z.of_nat (length bs))); [lia|].
  rewrite andb_false_r. reflexivity.
Qed.

Lemma array_setitem_ok (w : world) (a : loc) (bs : list byte) (i v : Z)
    (b : byte) :
  arrays w !! a = Some bs → 0 <= i < Z.of_nat (length bs) →
  byte_of_int v = Some b →
  array_setitem a i v w
  = (set_arrays <[a := <[Z.to_nat i := b]> bs]> w, inr tt).
Proof.
  intros Ha Hi Hb.
  unfold array_setitem, bind, array_items, norm_index. rewrite Ha.
  destruct (Z.ltb_spec i 0); [lia|].
  destruct (Z.leb_spec 0 i); [|lia].
  destruct (Z.ltb_spec i (Z.of_nat (length bs))); [|lia].
  simpl. rewrite Hb. reflexivity.
Qed.

(** ** mutate *)

(** What [mutate] does at a position inside the receiver. *)
Lemma mutate_in_range (w : world) (e : loc) (bs : list byte) (p : Z) :
  entity w e bs → 0 <= p < 8 * Z.of_nat (length bs) →
  ∃ b b',
    bs !! Z.to_nat (p / 8) = Some b ∧
    byte_val b' = Z.lxor (byte_val b) (2 ^ (7 - p mod 8)) ∧
    Zoon.mutate e p w
    = (copy_world w e (<[Z.to_nat (p / 8) := b']> bs),
       inr (fresh (dom (zoons w)))).
Proof.
  intros He Hp.
  assert (0 <= p / 8 < Z.of_nat (length bs)) as Hq.
  { split; [apply Z.div_pos; lia | apply Z.div_lt_upper_bound; lia]. }
  pose proof (Z.mod_pos_bound p 8 eq_refl) as Hr.
  destruct (lookup_lt_is_Some_2 bs (Z.to_nat (p / 8))) as [b Hb]; [lia|].
  destruct (byte_of_int_Some (toggle_bit_in_byte (7 - p mod 8) (byte_val b)))
    as (b' & Hb' & Hv).
  { apply toggle_bit_range; [lia | apply byte_val_range]. }
  exists b, b'. split; [exact Hb|]. split.
  { rewrite Hv. apply toggle_bit_pow2. }
  unfold Zoon.mutate, Zoon.divmod. unfold bind at 1.
  rewrite (new_copy w e bs He).
  unfold bind at 1. unfold Zoon.byteseq at 1. simpl.
  rewrite lookup_insert_eq. simpl.
  unfold bind at 1.
  rewrite (array_getitem_ok _ _ bs _ b); simpl;
    [| apply lookup_insert_eq | lia | exact Hb].
  unfold bind at 1. unfold Zoon.byteseq at 1. simpl.
  rewrite lookup_insert_eq. simpl.
  unfold bind at 1.
  rewrite (array_setitem_ok _ _ bs _ _ b'); simpl;
    [| apply lookup_insert_eq | lia | exact Hb'].
  unfold ret, copy_world, set_arrays. simpl.
  rewrite insert_insert_eq. reflexivity.
Qed.

(** What [mutate] does at a position at or beyond the end. *)
Lemma mutate_beyond (w : world) (e : loc) (bs : list byte) (p : Z) :
  entity w e bs → 8 * Z.of_nat (length bs) <= p →
  Zoon.mutate e p w = (copy_world w e bs, inl IndexError).
Proof.
  intros He Hp.
  assert (Z.of_nat (length bs) <= p / 8) as Hq.
  { apply Z.div_le_lower_bound; lia. }
  unfold Zoon.mutate, Zoon.divmod. unfold bind at 1.
  rewrite (new_copy w e bs He).
  unfold bind at 1. unfold Zoon.byteseq at 1. simpl.
  rewrite lookup_insert_eq. simpl.
  unfold bind at 1.
  rewrite (array_getitem_beyond _ _ bs); simpl;
    [reflexivity | apply lookup_insert_eq | exact Hq].
Qed.

(** C2. For a Zoon [e] holding [bs] and a position [p] inside it,
    [mutate] returns a new Zoon that holds [bs] with byte [p / 8] replaced
    by that byte XOR [2 ^ (7 - p mod 8)], so that in this byte exactly the
    bit of that weight is inverted and all other bytes are as in [e].
    The Zoon built from ["01100001"] yields the single byte 0xE1 after
    [mutate(0)]. *)
Theorem mutate_flips_one_bit :
  (∀ (w : world) (e : loc) (bs : list byte) (p : Z),
     entity w e bs → 0 <= p < 8 * Z.of_nat (length bs) →
     ∃ w' m b b',
       Zoon.mutate e p w = (w', inr m) ∧
       zoons w !! m = None ∧
       bs !! Z.to_nat (p / 8) = Some b ∧
       byte_val b' = Z.lxor (byte_val b) (2 ^ (7 - p mod 8)) ∧
       (∀ j, 0 <= j →
          Z.testbit (byte_val b') j
          = if j =? 7 - p mod 8 then negb (Z.testbit (byte_val b) j)
            else Z.testbit (byte_val b) j) ∧
       entity w' m (<[Z.to_nat (p / 8) := b']> bs))
  ∧ (let '(w, r) := (e <- Zoon.new (PyStr "01100001") ;;
                     Zoon.mutate e 0) empty_world in
     match r with inr m => bytes_of w m | inl _ => None end)
    = Some [0xE1].
Proof.
  split; [|vm_compute; reflexivity].
  intros w e bs p He Hp.
  destruct (mutate_in_range w e bs p He Hp) as (b & b' & Hb & Hv & Hm).
  pose proof (Z.mod_pos_bound p 8 eq_refl) as Hr.
  eexists _, _, b, b'. split; [exact Hm|].
  split; [apply fresh_lookup|]. split; [exact Hb|]. split; [exact Hv|].
  split; [|apply copy_world_entity].
  intros j Hj. rewrite Hv, Z.lxor_spec, Z.pow2_bits_eqb by lia.
  rewrite (Z.eqb_sym j). destruct (7 - p mod 8 =? j).
  - apply xorb_true_r.
  - apply xorb_false_r.
Qed.

Lemma mutate_flips_one_bit_witness :
  entity world_a zoon_a ["a"%byte] ∧
  ∃ w' m, Zoon.mutate zoon_a 0 world_a = (w', inr m) ∧
          entity w' m ["225"%byte].
Proof.
  assert (entity world_a zoon_a ["a"%byte]) as He.
  { eexists. split; vm_compute; reflexivity. }
  assert (0 <= 0 < 8 * Z.of_nat (length ["a"%byte])) as Hp.
  { simpl. lia. }
  split; [exact He|].
  destruct (proj1 mutate_flips_one_bit world_a zoon_a ["a"%byte] 0 He Hp)
    as (w' & m & b & b' & Hm & _ & Hb & Hv & _ & Hent).
  exists w', m. split; [exact Hm|].
  simpl in Hb. injection Hb as <-.
  assert (b' = "225"%byte) as <-; [|exact Hent].
  apply byte_val_inj. rewrite Hv. vm_compute. reflexivity.
Defined.

(** C3. Mutating twice at the same valid position gives back the bytes
    of the receiver. *)
Theorem mutate_twice (w : world) (e : loc) (bs : list byte) (p : Z) :
  entity w e bs → 0 <= p < 8 * Z.of_nat (length bs) →
  ∃ w1 m1 w2 m2,
    Zoon.mutate e p w = (w1, inr m1) ∧
    Zoon.mutate m1 p w1 = (w2, inr m2) ∧
    entity w2 m2 bs.
Proof.
  intros He Hp.
  destruct (mutate_in_range w e bs p He Hp) as (b & b' & Hb & Hv & Hm).
  set (k := Z.to_nat (p / 8)) in *.
  set (w1 := copy_world w e (<[k := b']> bs)) in *.
  assert (entity w1 (fresh (dom (zoons w))) (<[k := b']> bs)) as He1
    by apply copy_world_entity.
  destruct (mutate_in_range w1 _ _ p He1) as (c & c' & Hc & Hv' & Hm').
  { rewrite length_insert. exact Hp. }
  fold k in Hc, Hm'.
  rewrite list_lookup_insert_eq in Hc by (eapply lookup_lt_Some; exact Hb).
  injection Hc as <-.
  assert (c' = b) as ->.
  { apply byte_val_inj. rewrite Hv', Hv.
    rewrite Z.lxor_assoc, Z.lxor_nilpotent, Z.lxor_0_r. reflexivity. }
  rewrite list_insert_insert_eq, list_insert_id in Hm' by exact Hb.
  eexists _, _, _, _. split; [exact Hm|]. split; [exact Hm'|].
  apply copy_world_entity.
Qed.

Lemma mutate_twice_witness :
  entity world_a zoon_a ["a"%byte] ∧
  ∃ w1 m1 w2 m2,
    Zoon.mutate zoon_a 0 world_a = (w1, inr m1) ∧
    Zoon.mutate m1 0 w1 = (w2, inr m2) ∧
    entity w2 m2 ["a"%byte].
Proof.
  assert (entity world_a zoon_a ["a"%byte]) as He.
  { eexists. split; vm_compute; reflexivity. }
  split; [exact He|].
  apply (mutate_twice world_a zoon_a ["a"%byte] 0 He).
  simpl. lia.
Defined.

(** C9. At a position at or beyond the length in bits, [mutate] raises
    IndexError (from the read of the target byte): it returns no Zoon. *)
Theorem mutate_out_of_range (w : world) (e : loc) (bs : list byte)
    (position : Z) :
  entity w e bs → 8 * Z.of_nat (length bs) <= position →
  (∃ n, Zoon.__len__ e w = (w, inr n) ∧ n <= position) ∧
  ∃ w', Zoon.mutate e position w = (w', inl IndexError).
Proof.
  intros He Hp. split.
  - exists (Z.of_nat (length bs) * 8). split; [|lia].
    destruct He as (o & Ho & Hbs).
    unfold Zoon.__len__, bind, Zoon.byteseq, array_len, bind, array_items.
    rewrite Ho, Hbs. reflexivity.
  - exists (copy_world w e bs). apply (mutate_beyond w e bs position He Hp).
Qed.

Lemma mutate_out_of_range_witness :
  entity world_a zoon_a ["a"%byte] ∧
  ∃ w', Zoon.mutate zoon_a 8 world_a = (w', inl IndexError).
Proof.
  assert (entity world_a zoon_a ["a"%byte]) as He.
  { eexists. split; vm_compute; reflexivity. }
  split; [exact He|].
  apply (mutate_out_of_range world_a zoon_a ["a"%byte] 8 He).
  simpl. lia.
Defined.

(** ** delete *)

Lemma copy_world_new (w : world) (e : loc) (bs : list byte) :
  new_in w (copy_world w e bs) (fresh (dom (zoons w))).
Proof.
  split; [apply fresh_lookup|]. eexists. split.
  - apply lookup_insert_eq.
  - apply fresh_lookup.
Qed.

Lemma delete_world_extends (w : world) (e : loc) (bs l : list byte) :
  extends w (delete_world w e bs l).
Proof.
  repeat split; simpl.
  - etransitivity; [|apply insert_fresh_subseteq].
    apply insert_fresh_subseteq.
  - apply insert_fresh_subseteq.
Qed.

Lemma delete_world_entity (w : world) (e : loc) (bs l : list byte) :
  entity (delete_world w e bs l) (fresh (dom (zoons w))) l.
Proof.
  eexists. split; simpl.
  - apply lookup_insert_eq.
  - simpl. apply lookup_insert_eq.
Qed.

Lemma delete_world_new (w : world) (e : loc) (bs l : list byte) :
  new_in w (delete_world w e bs l) (fresh (dom (zoons w))).
Proof.
  split; [apply fresh_lookup|]. eexists. split.
  - apply lookup_insert_eq.
  - simpl. apply eq_None_not_Some. intros [x Hx].
    eapply (fresh_ne (arrays (copy_world w e bs))); [|reflexivity].
    eapply lookup_weaken; [exact Hx|]. apply copy_world_extends.
Qed.

(** [delete] never raises: whatever the two integers, it returns a new
    Zoon holding [byteseq[:start] + byteseq[stop:]]. *)
Lemma delete_total (w : world) (e : loc) (bs : list byte) (start stop : Z) :
  entity w e bs →
  Zoon.delete e start stop w
  = (delete_world w e bs (slice_to bs start ++ slice_from bs stop),
     inr (fresh (dom (zoons w)))).
Proof.
  intros He.
  unfold Zoon.delete. unfold bind at 1.
  rewrite (new_copy w e bs He).
  unfold bind at 1. unfold Zoon.byteseq at 1. simpl.
  rewrite lookup_insert_eq. simpl.
  unfold bind at 1. unfold array_items at 1. simpl.
  rewrite lookup_insert_eq.
  unfold bind at 1. unfold Zoon.byteseq_setter, array_of_ints.
  rewrite mapM_byte_of_int.
  unfold bind, array_new, array_extend, ret, set_arrays, set_zoons. simpl.
  rewrite lookup_insert_eq. simpl. rewrite lookup_insert_eq.
  unfold delete_world. simpl.
  rewrite !insert_insert_eq. reflexivity.
Qed.

Lemma slice_bound_nonneg (k n : Z) :
  0 <= k → 0 <= n → slice_bound k n = Z.to_nat (Z.min k n).
Proof.
  intros Hk Hn. unfold slice_bound.
  destruct (Z.ltb_spec k 0); [lia | reflexivity].
Qed.

Lemma slice_to_nonneg (bs : list byte) (k : Z) :
  0 <= k → slice_to bs k = take (Z.to_nat k) bs.
Proof.
  intros Hk. unfold slice_to. rewrite slice_bound_nonneg by lia.
  destruct (Z.le_gt_cases k (Z.of_nat (length bs))).
  - rewrite Z.min_l by lia. reflexivity.
  - rewrite Z.min_r, Nat2Z.id by lia.
    rewrite !take_ge by lia. reflexivity.
Qed.

Lemma slice_from_nonneg (bs : list byte) (k : Z) :
  0 <= k → slice_from bs k = drop (Z.to_nat k) bs.
Proof.
  intros Hk. unfold slice_from. rewrite slice_bound_nonneg by lia.
  destruct (Z.le_gt_cases k (Z.of_nat (length bs))).
  - rewrite Z.min_l by lia. reflexivity.
  - rewrite Z.min_r, Nat2Z.id by lia.
    rewrite !drop_ge by lia. reflexivity.
Qed.

(** C5. For [0 <= start <= stop <= n], [delete(start, stop)] on a Zoon of
    [n] bytes returns a new Zoon of [n - (stop - start)] bytes: the bytes
    before [start] followed by the bytes from [stop] on. *)
Theorem delete_in_range (w : world) (e : loc) (bs : list byte)
    (start stop : Z) :
  entity w e bs → 0 <= start <= stop → stop <= Z.of_nat (length bs) →
  ∃ w' m bs',
    Zoon.delete e start stop w = (w', inr m) ∧
    zoons w !! m = None ∧
    entity w' m bs' ∧
    bs' = take (Z.to_nat start) bs ++ drop (Z.to_nat stop) bs ∧
    Z.of_nat (length bs') = Z.of_nat (length bs) - (stop - start).
Proof.
  intros He Hs Hn.
  eexists _, _, _. split; [apply (delete_total w e bs start stop He)|].
  split; [apply fresh_lookup|].
  split; [apply delete_world_entity|].
  rewrite slice_to_nonneg, slice_from_nonneg by lia.
  split; [reflexivity|].
  rewrite length_app, length_take, length_drop. lia.
Qed.

Lemma delete_in_range_witness :
  entity world_a zoon_a ["a"%byte] ∧
  ∃ w' m, Zoon.delete zoon_a 0 1 world_a = (w', inr m) ∧ entity w' m [].
Proof.
  assert (entity world_a zoon_a ["a"%byte]) as He.
  { eexists. split; vm_compute; reflexivity. }
  split; [exact He|].
  destruct (delete_in_range world_a zoon_a ["a"%byte] 0 1 He)
    as (w' & m & bs' & Hd & _ & Hent & -> & _).
  - lia.
  - simpl. lia.
  - exists w', m. split; [exact Hd | exact Hent].
Defined.

(** C10. [delete] checks no bound and returns a new Zoon for all
    non-negative arguments: both bounds are clamped to the byte length
    [n], a [stop] beyond [n] acts as [n], and with [stop < start] the
    result is the receiver's bytes with those of the region
    [stop, min(start, n)) repeated, hence longer by that region. *)
Theorem delete_unchecked (w : world) (e : loc) (bs : list byte)
    (start stop : Z) :
  entity w e bs → 0 <= start → 0 <= stop →
  let n := length bs in
  let lo := Z.to_nat (Z.min stop (Z.of_nat n)) in
  let hi := Z.to_nat (Z.min start (Z.of_nat n)) in
  ∃ w' m bs',
    Zoon.delete e start stop w = (w', inr m) ∧
    entity w' m bs' ∧
    bs' = take hi bs ++ drop lo bs ∧
    (Z.of_nat n < stop →
     Zoon.delete e start stop w = Zoon.delete e start (Z.of_nat n) w) ∧
    (stop < start →
     bs' = take lo bs ++ region lo hi bs ++ region lo hi bs ++ drop hi bs ∧
     length bs' = (n + length (region lo hi bs))%nat ∧
     length (region lo hi bs) = (hi - lo)%nat).
Proof.
  intros He Hs Ht n lo hi.
  assert (slice_to bs start = take hi bs) as Eto.
  { unfold slice_to. rewrite slice_bound_nonneg by lia. reflexivity. }
  assert (slice_from bs stop = drop lo bs) as Efrom.
  { unfold slice_from. rewrite slice_bound_nonneg by lia. reflexivity. }
  eexists _, _, _. split; [apply (delete_total w e bs start stop He)|].
  split; [apply delete_world_entity|].
  rewrite Eto, Efrom. split; [reflexivity|]. split.
  - intros Hgt. rewrite !(delete_total w e bs) by exact He.
    rewrite Efrom. unfold slice_from.
    rewrite slice_bound_nonneg by lia.
    subst lo n. rewrite Z.min_r, Z.min_id by lia. reflexivity.
  - intros Hlt.
    assert (lo <= hi)%nat as Hle by lia.
    assert (hi <= n)%nat as Hhi by lia.
    assert (take hi bs = take lo bs ++ region lo hi bs) as E1.
    { unfold region. rewrite <- (take_drop lo (take hi bs)).
      rewrite take_take, Nat.min_l by lia.
      rewrite take_drop_commute.
      replace (lo + (hi - lo))%nat with hi by lia. reflexivity. }
    assert (drop lo bs = region lo hi bs ++ drop hi bs) as E2.
    { unfold region.
      rewrite <- (take_drop (hi - lo) (drop lo bs)) at 1.
      rewrite drop_drop. do 2 f_equal. lia. }
    assert (length (region lo hi bs) = (hi - lo)%nat) as E3.
    { unfold region. rewrite length_take, length_drop. lia. }
    split; [|split; [|exact E3]].
    + rewrite E1 at 1. rewrite E2 at 1. rewrite <- app_assoc. reflexivity.
    + rewrite length_app, length_take, length_drop, E3. lia.
Qed.

Lemma delete_unchecked_witness :
  entity world_a zoon_a ["a"%byte] ∧
  ∃ w' m, Zoon.delete zoon_a 1 0 world_a = (w', inr m) ∧
          entity w' m ["a"%byte; "a"%byte].
Proof.
  assert (entity world_a zoon_a ["a"%byte]) as He.
  { eexists. split; vm_compute; reflexivity. }
  split; [exact He|].
  destruct (delete_unchecked world_a zoon_a ["a"%byte] 1 0 He)
    as (w' & m & bs' & Hd & Hent & -> & _).
  - lia.
  - lia.
  - exists w', m. split; [exact Hd | exact Hent].
Defined.

(** C4. [mutate] (at a valid position) and [delete] (at any arguments)
    leave the receiver as it was: they return a new Zoon object with an
    array object of its own, and every object of the store before the call
    is unchanged after it. *)
Theorem receiver_unchanged (w : world) (e : loc) (bs : list byte) :
  entity w e bs →
  (∀ p, 0 <= p < 8 * Z.of_nat (length bs) →
        ∃ w' m, Zoon.mutate e p w = (w', inr m) ∧
                entity w' e bs ∧ extends w w' ∧ new_in w w' m ∧ m ≠ e)
  ∧ (∀ start stop,
        ∃ w' m, Zoon.delete e start stop w = (w', inr m) ∧
                entity w' e bs ∧ extends w w' ∧ new_in w w' m ∧ m ≠ e).
Proof.
  intros He.
  assert (fresh (dom (zoons w)) ≠ e) as Hne.
  { destruct He as (o & Ho & _). eapply fresh_ne. exact Ho. }
  split.
  - intros p Hp.
    destruct (mutate_in_range w e bs p He Hp) as (b & b' & _ & _ & Hm).
    eexists _, _. split; [exact Hm|].
    pose proof (copy_world_extends w e (<[Z.to_nat (p / 8) := b']> bs)).
    split; [eapply extends_entity; eassumption|].
    split; [assumption|]. split; [apply copy_world_new | exact Hne].
  - intros start stop.
    eexists _, _. split; [apply (delete_total w e bs start stop He)|].
    pose proof (delete_world_extends w e bs
                  (slice_to bs start ++ slice_from bs stop)).
    split; [eapply extends_entity; eassumption|].
    split; [assumption|]. split; [apply delete_world_new | exact Hne].
Qed.

Lemma receiver_unchanged_witness :
  entity world_a zoon_a ["a"%byte] ∧
  ∃ w' m, Zoon.mutate zoon_a 0 world_a = (w', inr m) ∧
          entity w' zoon_a ["a"%byte] ∧ m ≠ zoon_a.
Proof.
  assert (entity world_a zoon_a ["a"%byte]) as He.
  { eexists. split; vm_compute; reflexivity. }
  split; [exact He|].
  destruct (proj1 (receiver_unchanged world_a zoon_a ["a"%byte] He) 0)
    as (w' & m & Hm & Hent & _ & _ & Hne).
  - simpl. lia.
  - exists w', m. repeat split; assumption.
Defined.

(** ** Construction from a bit literal *)

Lemma pack8_testbit (l : list bool) (j : nat) :
  (j < 8)%nat →
  Z.testbit (byte_val (pack8 l)) (7 - Z.of_nat j) = nth j l false.
Proof.
  intros Hj. unfold pack8.
  do 8 (destruct j as [|j];
        [generalize (nth 0 l false) (nth 1 l false) (nth 2 l false)
           (nth 3 l false) (nth 4 l false) (nth 5 l false) (nth 6 l false)
           (nth 7 l false);
         intros b0 b1 b2 b3 b4 b5 b6 b7;
         destruct b0, b1, b2, b3, b4, b5, b6, b7; reflexivity|]).
  lia.
Qed.

Lemma pack_length (n : nat) (bits : list bool) : length (pack n bits) = n.
Proof.
  revert bits. induction n as [|n IH]; intros bits; simpl.
  - reflexivity.
  - rewrite IH. reflexivity.
Qed.

Lemma pack_lookup (n : nat) (bits : list bool) (i : nat) :
  (i < n)%nat →
  pack n bits !! i = Some (pack8 (take 8 (drop (8 * i) bits))).
Proof.
  revert bits i. induction n as [|n IH]; intros bits i Hi; [lia|].
  destruct i as [|i]; [reflexivity|].
  change (pack (S n) bits !! S i) with (pack n (drop 8 bits) !! i).
  rewrite IH by lia. rewrite drop_drop.
  replace (8 * S i)%nat with (8 + 8 * i)%nat by lia. reflexivity.
Qed.

Lemma string_get_lookup (s : string) (k : nat) :
  String.get k s = list_ascii_of_string s !! k.
Proof.
  revert k. induction s as [|c s IH]; intros k; simpl.
  - destruct k; reflexivity.
  - destruct k; simpl; [reflexivity | apply IH].
Qed.

Lemma string_length_list (s : string) :
  length (list_ascii_of_string s) = String.length s.
Proof. induction s as [|c s IH]; simpl; congruence. Qed.

Lemma chars_subset_01_spec (s : string) :
  Zoon.chars_subset_01 s = true ↔
  ∀ c, In c (list_ascii_of_string s) → c = "0"%char ∨ c = "1"%char.
Proof.
  unfold Zoon.chars_subset_01. rewrite forallb_forall.
  split; intros H c Hc; specialize (H c Hc); unfold is_bit_char in *.
  - apply orb_prop in H as [H|H]; apply Ascii.eqb_eq in H; auto.
  - apply orb_true_intro.
    destruct H as [-> | ->]; [left | right]; apply Ascii.eqb_refl.
Qed.

(** The bits of the bytes [to_bytes] builds. *)
Lemma to_bytes_bits (s : string) (bs : list byte) :
  to_bytes s = inr bs →
  length bs = (String.length s / 8)%nat ∧
  ∀ (i j : nat) (c : ascii),
    (j < 8)%nat → String.get (8 * i + j) s = Some c →
    ∃ b, bs !! i = Some b ∧
         Z.testbit (byte_val b) (7 - Z.of_nat j) = Ascii.eqb c "1".
Proof.
  unfold to_bytes. rewrite string_length_list.
  destruct (forallb is_bit_char (list_ascii_of_string s)
            && (String.length s mod 8 =? 0)%nat) eqn:E; [|discriminate].
  apply andb_prop in E as [_ Hlen]. apply Nat.eqb_eq in Hlen.
  intros [= <-]. split; [apply pack_length|].
  intros i j c Hj Hc. rewrite string_get_lookup in Hc.
  apply lookup_lt_Some in Hc as Hlt. rewrite string_length_list in Hlt.
  pose proof (Nat.div_mod_eq (String.length s) 8) as Hdm.
  assert (i < String.length s / 8)%nat as Hi by lia.
  eexists. split; [apply pack_lookup; exact Hi|].
  rewrite pack8_testbit by exact Hj.
  rewrite nth_lookup, lookup_take, lookup_drop, list_lookup_fmap, Hc.
  case_decide; [reflexivity | lia].
Qed.

Lemma to_bytes_result (s : string) :
  Zoon.chars_subset_01 s = true →
  to_bytes s
  = if (String.length s mod 8 =? 0)%nat
    then inr (pack (String.length s / 8)
                (map bit_of_char (list_ascii_of_string s)))
    else inl InvalidArgument.
Proof.
  unfold Zoon.chars_subset_01, to_bytes. intros ->.
  rewrite string_length_list. reflexivity.
Qed.

(** [Zoon(s)] for a string [s], by what the assertion and [to_bytes]
    answer. *)
Lemma new_str (w : world) (s : string) :
  let a := fresh (dom (arrays w)) in
  let z := fresh (dom (zoons w)) in
  let o := {| _initializer := PyStr s; __byteseq := a |} in
  Zoon.new (PyStr s) w
  = match (if Zoon.chars_subset_01 s then to_bytes s
           else inl AssertionError) with
    | inl x => ({| arrays := <[a := []]> (arrays w);
                   zoons := <[z := o]> (zoons w);
                   files := files w |}, inl x)
    | inr bs => ({| arrays := <[a := bs]> (arrays w);
                    zoons := <[z := o]> (zoons w);
                    files := files w |}, inr z)
    end.
Proof.
  intros a z o.
  unfold Zoon.new, Zoon.__init__, bind, array_new, assert_, lift,
    array_extend, ret, raise, set_arrays, set_zoons. simpl.
  destruct (Zoon.chars_subset_01 s); [|reflexivity].
  destruct (to_bytes s) as [x|bs]; simpl; [reflexivity|].
  rewrite lookup_insert_eq. simpl. rewrite insert_insert_eq. reflexivity.
Qed.

(** C8, as stated, fails: a string with a character other than 0 and 1
    is rejected by the assertion of [__init__], with AssertionError and
    not with InvalidArgument, whether its length is a multiple of 8 or
    not. *)
Lemma bit_literal_bad_alphabet_error :
  snd (Zoon.new (PyStr "0110000x") empty_world) = inl AssertionError ∧
  snd (Zoon.new (PyStr "2") empty_world) = inl AssertionError ∧
  (inl AssertionError : exn + loc) ≠ inl InvalidArgument.
Proof.
  split; [|split].
  - vm_compute. reflexivity.
  - vm_compute. reflexivity.
  - discriminate.
Qed.

(** C8, amended. Construction from a string fails with AssertionError
    when the string has a character other than 0 and 1 (the assertion of
    [__init__]), and with InvalidArgument when it has none but its length
    is not a multiple of 8 (the rejection by [to_bytes]); otherwise it
    returns a new Zoon of [length / 8] bytes in which bit [7 - j] of byte
    [i] is character [8 i + j] of the string: eight characters a byte,
    most significant bit first, in order. *)
Theorem bit_literal_construction (w : world) (s : string) :
  ((∃ c, In c (list_ascii_of_string s) ∧ c ≠ "0"%char ∧ c ≠ "1"%char) →
   ∃ w', Zoon.new (PyStr s) w = (w', inl AssertionError))
  ∧ ((∀ c, In c (list_ascii_of_string s) → c = "0"%char ∨ c = "1"%char) →
     (String.length s mod 8)%nat ≠ 0%nat →
     ∃ w', Zoon.new (PyStr s) w = (w', inl InvalidArgument))
  ∧ ((∀ c, In c (list_ascii_of_string s) → c = "0"%char ∨ c = "1"%char) →
     (String.length s mod 8)%nat = 0%nat →
     ∃ w' e bs,
       Zoon.new (PyStr s) w = (w', inr e) ∧
       zoons w !! e = None ∧
       entity w' e bs ∧
       length bs = (String.length s / 8)%nat ∧
       ∀ (i j : nat) (c : ascii),
         (j < 8)%nat → String.get (8 * i + j) s = Some c →
         ∃ b, bs !! i = Some b ∧
              Z.testbit (byte_val b) (7 - Z.of_nat j) = Ascii.eqb c "1").
Proof.
  pose proof (new_str w s) as Hnew. simpl in Hnew.
  split; [|split].
  - intros (c & Hc & H0 & H1).
    destruct (Zoon.chars_subset_01 s) eqn:E.
    + pose proof (proj1 (chars_subset_01_spec s) E c Hc) as [|];
        contradiction.
    + eexists. exact Hnew.
  - intros Hs Hlen. apply (proj2 (chars_subset_01_spec s)) in Hs.
    rewrite Hs, (to_bytes_result s Hs) in Hnew.
    apply Nat.eqb_neq in Hlen. rewrite Hlen in Hnew.
    eexists. exact Hnew.
  - intros Hs Hlen. apply (proj2 (chars_subset_01_spec s)) in Hs.
    rewrite Hs in Hnew.
    destruct (to_bytes s) as [x|bs] eqn:Eb.
    { rewrite (to_bytes_result s Hs) in Eb.
      apply Nat.eqb_eq in Hlen. rewrite Hlen in Eb. discriminate. }
    destruct (to_bytes_bits s bs Eb) as [Hl Hbits].
    eexists _, _, bs. split; [exact Hnew|].
    split; [apply fresh_lookup|]. split; [|split; assumption].
    eexists. split; simpl.
    + apply lookup_insert_eq.
    + simpl. apply lookup_insert_eq.
Qed.

Lemma bit_literal_construction_witness :
  (∃ w', Zoon.new (PyStr "0110000x") empty_world
         = (w', inl AssertionError))
  ∧ (∃ w', Zoon.new (PyStr "0110") empty_world
           = (w', inl InvalidArgument))
  ∧ (∃ w' e bs, Zoon.new (PyStr "01100001") empty_world = (w', inr e)
                ∧ entity w' e bs ∧ length bs = 1%nat).
Proof.
  split; [|split].
  - apply (proj1 (bit_literal_construction empty_world "0110000x")).
    exists "x"%char. split; [|split; discriminate].
    simpl. do 7 right. left. reflexivity.
  - apply (proj1 (proj2 (bit_literal_construction empty_world "0110"))).
    + intros c Hc. simpl in Hc.
      repeat (destruct Hc as [<- | Hc]; [auto|]). contradiction.
    + simpl. discriminate.
  - destruct (proj2 (proj2 (bit_literal_construction empty_world
                              "01100001")))
      as (w' & e & bs & Hn & _ & Hent & Hl & _).
    + intros c Hc. simpl in Hc.
      repeat (destruct Hc as [<- | Hc]; [auto|]). contradiction.
    + reflexivity.
    + exists w', e, bs. repeat split; assumption.
Defined.

(** ** The process runner *)

Lemma prefix_app (s t : string) : String.prefix s (s ++ t)%string = true.
Proof.
  induction s as [|c s IH]; simpl.
  - destruct t; reflexivity.
  - rewrite IH. destruct (ascii_dec c c); [reflexivity | contradiction].
Qed.

Lemma str_in_prefix (needle hay : string) :
  String.prefix needle hay = true → str_in needle hay = true.
Proof. destruct hay; simpl; intros ->; reflexivity. Qed.

Lemma str_in_app (needle pre post : string) :
  str_in needle (pre ++ needle ++ post)%string = true.
Proof.
  induction pre as [|c pre IH].
  - apply str_in_prefix. exact (prefix_app needle post).
  - change (String.prefix needle (String c (pre ++ needle ++ post)%string)
            || str_in needle (pre ++ needle ++ post)%string = true).
    rewrite IH. apply orb_true_r.
Qed.

Lemma Qle_bool_false (x y : Q) : (y < x)%Q → Qle_bool x y = false.
Proof.
  intros H. destruct (Qle_bool x y) eqn:E; [|reflexivity].
  apply Qle_bool_iff in E. apply Qlt_not_le in H. contradiction.
Qed.

Lemma Qle_bool_true (x y : Q) : (x <= y)%Q → Qle_bool x y = true.
Proof. apply Qle_bool_iff. Qed.

(** With the empty detail of the spec's step 3 the runner fails
    [test_run_fail] on every host and platform. *)
Lemma run_no_detail_fails_test (h : run.host)
    (platform : test_run.platform_name) :
  test_run.test_run_fail (run.run run.no_detail h) platform = false.
Proof.
  unfold test_run.test_run_fail, run.run, run.no_detail.
  destruct (h _) as [path|after code out err|].
  - rewrite andb_false_r. reflexivity.
  - destruct (Qle_bool after run.default_timeout).
    + destruct (code =? 0).
      * rewrite andb_false_r. reflexivity.
      * apply andb_false_r.
    + rewrite andb_false_r. reflexivity.
  - rewrite andb_false_r. reflexivity.
Qed.

(** The tests of t/test_run.py pass on the Linux host for the runner
    that reports the captured error text. *)
Lemma tests_pass_on_linux :
  let run := run.run run.stderr_detail test_run.linux_host in
  test_run.test_run_test_true run test_run.linux_which = true ∧
  test_run.test_run_test_false run test_run.linux_which = true ∧
  test_run.test_run_fail run test_run.linux = true ∧
  test_run.test_run_badpath run = true ∧
  test_run.test_run_timeout run = true ∧
  test_run.test_run_no_timeout run = true.
Proof. vm_compute. repeat split. Qed.





(** C6. A command whose executable cannot be found yields the fixed code
    2 on every host and for every timeout, the kind file_not_found_error,
    an empty captured output, and a "No such file or directory" message
    that contains the missing path. *)
Theorem run_file_not_found (detail : run.failure_detail) (h : run.host)
    (command : string) (timeout : Q) (path : string) :
  h command = run.NoSuchFile path →
  ∃ d,
    run.run detail h command timeout
    = (2, run.status_name run.file_not_found_error, "", d) ∧
    str_in path d = true ∧
    str_in "No such file or directory" d = true.
Proof.
  intros Hh. exists (run.enoent path). unfold run.run. rewrite Hh.
  split; [reflexivity|]. unfold run.enoent. split.
  - apply (str_in_app path "[Errno 2] No such file or directory: '").
  - apply (str_in_app "No such file or directory" "[Errno 2] ").
Qed.

Lemma run_file_not_found_witness :
  ∃ d,
    run.run run.stderr_detail test_run.linux_host test_run.BADPATH
      run.default_timeout
    = (2, "filenotfounderror", "", d) ∧
    str_in test_run.BADPATH d = true ∧
    str_in "No such file or directory" d = true.
Proof.
  apply (run_file_not_found run.stderr_detail test_run.linux_host
           test_run.BADPATH run.default_timeout test_run.BADPATH).
  reflexivity.
Defined.

(** C7, as stated, fails: a command that sleeps 2 seconds and then exits
    with status 3 does not complete within a timeout of 1 second, and run
    with a timeout of 3 seconds, larger than its run time, it yields
    called_process_error, not success. *)
Lemma run_longer_timeout_not_success :
  let command := "sh -c 'sleep 2; exit 3'" in
  test_run.linux_host command = run.Exits 2 3 "" "" ∧
  run.run run.no_detail test_run.linux_host command 1
  = (124, run.status_name run.timeout_expired, "", "") ∧
  (2 < 3)%Q ∧
  run.run run.no_detail test_run.linux_host command 3
  = (3, run.status_name run.called_process_error, "", "") ∧
  run.status_name run.called_process_error
  ≠ run.status_name run.success.
Proof.
  repeat split; vm_compute; try reflexivity; discriminate.
Qed.

(** C7, amended. A command that does not complete within the timeout
    (it never exits, or exits later) yields exactly
    (124, timeout_expired, "", ""), whatever its own exit status; the same
    command, if it exits with status 0, run with a timeout larger than its
    run time yields success with its captured output. *)
Theorem run_timeout (detail : run.failure_detail) (h : run.host)
    (command : string) (timeout : Q) :
  (h command = run.Hangs ∨
   (∃ after code out err,
      h command = run.Exits after code out err ∧ (timeout < after)%Q) →
   run.run detail h command timeout
   = (124, run.status_name run.timeout_expired, "", ""))
  ∧ (∀ after out err timeout',
       h command = run.Exits after 0 out err →
       (after < timeout')%Q →
       run.run detail h command timeout'
       = (0, run.status_name run.success, out, "")).
Proof.
  split.
  - intros [Hh | (after & code & out & err & Hh & Hlt)];
      unfold run.run; rewrite Hh; [reflexivity|].
    rewrite (Qle_bool_false _ _ Hlt). reflexivity.
  - intros after out err timeout' Hh Hlt. unfold run.run. rewrite Hh.
    rewrite (Qle_bool_true _ _ (Qlt_le_weak _ _ Hlt)). reflexivity.
Qed.

Lemma run_timeout_witness :
  run.run run.stderr_detail test_run.linux_host "sleep 2" 1
  = (124, "timeoutexpired", "", "")
  ∧ run.run run.stderr_detail test_run.linux_host "sleep 2" 3
    = (0, "success", "", "").
Proof.
  split.
  - apply (proj1 (run_timeout run.stderr_detail test_run.linux_host
                    "sleep 2" 1)).
    right. exists 2%Q, 0, "", "". split; reflexivity.
  - apply (proj2 (run_timeout run.stderr_detail test_run.linux_host
                    "sleep 2" 1) 2%Q "" "" 3%Q).
    + reflexivity.
    + reflexivity.
Defined.

(** * Further properties of zoon.py *)

(** ** Construction by copy and from a file, [write], [__len__] *)

Lemma array_setitem_frame (w w' : world) (a : loc) (i v : Z)
    (r : exn + unit) :
  array_setitem a i v w = (w', r) →
  zoons w' = zoons w ∧ files w' = files w ∧
  ∀ a', a' ≠ a → arrays w' !! a' = arrays w !! a'.
Proof.
  unfold array_setitem, bind, array_items, raise.
  destruct (arrays w !! a) as [bs|]; [|intros [= <- _]; auto].
  destruct ((0 <=? _) && _); [|intros [= <- _]; auto].
  destruct (byte_of_int v); intros [= <- _]; auto.
  simpl. repeat split. intros a' Hne. apply lookup_insert_ne. auto.
Qed.

(** X1. [Zoon(e)] returns a new Zoon with the bytes of [e] in an array of
    its own: [e] is as it was, and no item assignment to the array of the
    copy, whatever its index and value, changes the bytes of [e]. *)
Theorem copy_construct (w : world) (e : loc) (bs : list byte) :
  entity w e bs →
  ∃ w' m a,
    Zoon.new (PyZoon e) w = (w', inr m) ∧
    m ≠ e ∧ new_in w w' m ∧ extends w w' ∧
    entity w' m bs ∧ entity w' e bs ∧
    Zoon.byteseq m w' = (w', inr a) ∧
    ∀ i v w'' r, array_setitem a i v w' = (w'', r) → entity w'' e bs.
Proof.
  intros He. pose proof He as (o & Ho & Hbs).
  exists (copy_world w e bs), (fresh (dom (zoons w))),
    (fresh (dom (arrays w))).
  split; [apply new_copy; exact He|].
  split; [eapply fresh_ne; exact Ho|].
  split; [apply copy_world_new|].
  split; [apply copy_world_extends|].
  split; [apply copy_world_entity|].
  assert (entity (copy_world w e bs) e bs) as He'.
  { eapply extends_entity; [apply copy_world_extends | exact He]. }
  split; [exact He'|]. split.
  { unfold Zoon.byteseq. simpl. rewrite lookup_insert_eq. reflexivity. }
  intros i v w'' r Hset.
  destruct (array_setitem_frame _ _ _ _ _ _ Hset) as (Hz & _ & Ha).
  destruct He' as (o' & Ho' & Hbs'). exists o'. rewrite Hz.
  split; [exact Ho'|]. rewrite Ha; [exact Hbs'|].
  intros E. simpl in Ho'.
  rewrite lookup_insert_ne in Ho' by (eapply fresh_ne; exact Ho).
  assert (o' = o) as -> by congruence.
  rewrite E, fresh_lookup in Hbs. discriminate.
Qed.

Lemma copy_construct_witness :
  ∃ w' m, Zoon.new (PyZoon zoon_a) world_a = (w', inr m) ∧
          entity w' m ["a"%byte] ∧ entity w' zoon_a ["a"%byte].
Proof.
  assert (entity world_a zoon_a ["a"%byte]) as He.
  { eexists. split; vm_compute; reflexivity. }
  destruct (copy_construct world_a zoon_a ["a"%byte] He)
    as (w' & m & a & Hn & _ & _ & _ & Hm & He' & _).
  exists w', m. repeat split; assumption.
Defined.




Lemma write_entity (s : machine) (e : loc) (bs : list byte)
    (path : string) :
  entity (store s) e bs → open_error s path = None →
  ZoonMethods.write e path s
  = (with_store s (ZoonMethods.set_file path bs (store s)), inr path).
Proof.
  intros (o & Ho & Hbs) Hopen.
  unfold ZoonMethods.write. rewrite Hopen.
  unfold bind, Zoon.byteseq, array_items, ret. simpl.
  rewrite Ho. simpl. rewrite Hbs. simpl. rewrite lookup_insert_eq. simpl.
  unfold ZoonMethods.set_file. simpl. rewrite insert_insert_eq.
  reflexivity.
Qed.

Lemma write_refused (s : machine) (e : loc) (path : string) (x : exn) :
  open_error s path = Some x → ZoonMethods.write e path s = (s, inl x).
Proof. intros H. unfold ZoonMethods.write. rewrite H. reflexivity. Qed.

(** X3. When the path cannot be opened for writing, [write] raises what
    [open] raises and changes nothing. Otherwise it returns the path it
    was given and changes nothing but the file of that path, which then
    holds exactly the bytes of the Zoon, whatever it held before: no
    object of the store, no other file and no mode is touched. *)
Theorem write_frame (s : machine) (e : loc) (bs : list byte)
    (path : string) :
  entity (store s) e bs →
  (∀ x, open_error s path = Some x →
        ZoonMethods.write e path s = (s, inl x))
  ∧ (open_error s path = None →
     ∃ s', ZoonMethods.write e path s = (s', inr path) ∧
           files (store s') !! path = Some bs ∧
           (∀ q, q ≠ path →
                 files (store s') !! q = files (store s) !! q) ∧
           arrays (store s') = arrays (store s) ∧
           zoons (store s') = zoons (store s) ∧
           modes s' = modes s).
Proof.
  intros He. split; [intros x; apply write_refused|].
  intros Hopen. eexists.
  split; [apply write_entity; eassumption|]. simpl.
  split; [apply lookup_insert_eq|].
  split; [|repeat split].
  intros q Hq. apply lookup_insert_ne. auto.
Qed.

Lemma write_frame_witness :
  ZoonMethods.write zoon_a "nodir/0" machine_a
  = (machine_a, inl FileNotFoundError)
  ∧ ∃ s', ZoonMethods.write zoon_a "/tmp/0" machine_a = (s', inr "/tmp/0") ∧
          files (store s') !! "/tmp/0" = Some ["a"%byte].
Proof.
  assert (entity (store machine_a) zoon_a ["a"%byte]) as He.
  { eexists. split; vm_compute; reflexivity. }
  split.
  - apply (proj1 (write_frame machine_a zoon_a ["a"%byte] "nodir/0" He)).
    reflexivity.
  - destruct (proj2 (write_frame machine_a zoon_a ["a"%byte] "/tmp/0" He))
      as (s' & Hw & Hf & _); [reflexivity|].
    exists s'. split; assumption.
Defined.



Lemma len_entity (w : world) (e : loc) (bs : list byte) :
  entity w e bs →
  Zoon.__len__ e w = (w, inr (Z.of_nat (length bs) * 8)).
Proof.
  intros (o & Ho & Hbs).
  unfold Zoon.__len__, bind, Zoon.byteseq, array_len, bind, array_items.
  rewrite Ho, Hbs. reflexivity.
Qed.

(** X5. [mutate] keeps the length: at a valid position the mutant has the
    [len] of the receiver, eight times its number of bytes. *)
Theorem mutate_keeps_len (w : world) (e : loc) (bs : list byte) (p : Z) :
  entity w e bs → 0 <= p < 8 * Z.of_nat (length bs) →
  ∃ w' m n,
    Zoon.mutate e p w = (w', inr m) ∧
    Zoon.__len__ e w = (w, inr n) ∧
    Zoon.__len__ m w' = (w', inr n) ∧
    n = 8 * Z.of_nat (length bs).
Proof.
  intros He Hp.
  destruct (mutate_in_range w e bs p He Hp) as (b & b' & _ & _ & Hm).
  eexists _, _, _. split; [exact Hm|].
  split; [apply len_entity; exact He|]. split; [|lia].
  rewrite (len_entity _ _ _ (copy_world_entity w e _)).
  rewrite length_insert. reflexivity.
Qed.

Lemma mutate_keeps_len_witness :
  ∃ w' m, Zoon.mutate zoon_a 7 world_a = (w', inr m) ∧
          Zoon.__len__ m w' = (w', inr 8).
Proof.
  assert (entity world_a zoon_a ["a"%byte]) as He.
  { eexists. split; vm_compute; reflexivity. }
  destruct (mutate_keeps_len world_a zoon_a ["a"%byte] 7 He)
    as (w' & m & n & Hm & _ & Hl & ->); [simpl; lia|].
  exists w', m. split; assumption.
Defined.

(** ** [mutate] at any integer position *)

Lemma array_getitem_at (w : world) (a : loc) (bs : list byte) (i : Z)
    (b : byte) :
  arrays w !! a = Some bs →
  0 <= norm_index i (Z.of_nat (length bs)) < Z.of_nat (length bs) →
  bs !! Z.to_nat (norm_index i (Z.of_nat (length bs))) = Some b →
  array_getitem a i w = (w, inr (byte_val b)).
Proof.
  intros Ha Hj Hb. unfold array_getitem, bind, array_items. rewrite Ha.
  destruct (Z.leb_spec 0 (norm_index i (Z.of_nat (length bs)))); [|lia].
  destruct (Z.ltb_spec (norm_index i (Z.of_nat (length bs)))
              (Z.of_nat (length bs))); [|lia].
  simpl. rewrite Hb. reflexivity.
Qed.

Lemma array_getitem_error (w : world) (a : loc) (bs : list byte) (i : Z) :
  arrays w !! a = Some bs →
  ¬ 0 <= norm_index i (Z.of_nat (length bs)) < Z.of_nat (length bs) →
  array_getitem a i w = (w, inl IndexError).
Proof.
  intros Ha Hj. unfold array_getitem, bind, array_items. rewrite Ha.
  destruct (Z.leb_spec 0 (norm_index i (Z.of_nat (length bs))));
    [|reflexivity].
  destruct (Z.ltb_spec (norm_index i (Z.of_nat (length bs)))
              (Z.of_nat (length bs))); [lia | reflexivity].
Qed.

Lemma array_setitem_at (w : world) (a : loc) (bs : list byte) (i v : Z)
    (b : byte) :
  arrays w !! a = Some bs →
  0 <= norm_index i (Z.of_nat (length bs)) < Z.of_nat (length bs) →
  byte_of_int v = Some b →
  array_setitem a i v w
  = (set_arrays
       <[a := <[Z.to_nat (norm_index i (Z.of_nat (length bs))) := b]> bs]>
       w, inr tt).
Proof.
  intros Ha Hj Hb. unfold array_setitem, bind, array_items. rewrite Ha.
  destruct (Z.leb_spec 0 (norm_index i (Z.of_nat (length bs)))); [|lia].
  destruct (Z.ltb_spec (norm_index i (Z.of_nat (length bs)))
              (Z.of_nat (length bs))); [|lia].
  simpl. rewrite Hb. reflexivity.
Qed.

(** [mutate] wherever the byte index, counted from the end if negative,
    falls inside the receiver. *)
Lemma mutate_at (w : world) (e : loc) (bs : list byte) (p : Z) :
  entity w e bs →
  0 <= norm_index (p / 8) (Z.of_nat (length bs)) < Z.of_nat (length bs) →
  ∃ b b',
    bs !! Z.to_nat (norm_index (p / 8) (Z.of_nat (length bs))) = Some b ∧
    byte_val b' = Z.lxor (byte_val b) (2 ^ (7 - p mod 8)) ∧
    Zoon.mutate e p w
    = (copy_world w e
         (<[Z.to_nat (norm_index (p / 8) (Z.of_nat (length bs))) := b']> bs),
       inr (fresh (dom (zoons w)))).
Proof.
  intros He Hj. set (j := norm_index (p / 8) (Z.of_nat (length bs))) in *.
  pose proof (Z.mod_pos_bound p 8 eq_refl) as Hr.
  destruct (lookup_lt_is_Some_2 bs (Z.to_nat j)) as [b Hb]; [lia|].
  destruct (byte_of_int_Some (toggle_bit_in_byte (7 - p mod 8) (byte_val b)))
    as (b' & Hb' & Hv).
  { apply toggle_bit_range; [lia | apply byte_val_range]. }
  exists b, b'. split; [exact Hb|]. split.
  { rewrite Hv. apply toggle_bit_pow2. }
  unfold Zoon.mutate, Zoon.divmod. unfold bind at 1.
  rewrite (new_copy w e bs He).
  unfold bind at 1. unfold Zoon.byteseq at 1. simpl.
  rewrite lookup_insert_eq. simpl.
  unfold bind at 1.
  rewrite (array_getitem_at _ _ bs _ b); simpl;
    [| apply lookup_insert_eq | exact Hj | exact Hb].
  unfold bind at 1. unfold Zoon.byteseq at 1. simpl.
  rewrite lookup_insert_eq. simpl.
  unfold bind at 1.
  rewrite (array_setitem_at _ _ bs _ _ b'); simpl;
    [| apply lookup_insert_eq | exact Hj | exact Hb'].
  unfold ret, copy_world, set_arrays. simpl.
  rewrite insert_insert_eq. reflexivity.
Qed.

Lemma mutate_index_error (w : world) (e : loc) (bs : list byte) (p : Z) :
  entity w e bs →
  ¬ 0 <= norm_index (p / 8) (Z.of_nat (length bs)) < Z.of_nat (length bs) →
  Zoon.mutate e p w = (copy_world w e bs, inl IndexError).
Proof.
  intros He Hj.
  unfold Zoon.mutate, Zoon.divmod. unfold bind at 1.
  rewrite (new_copy w e bs He).
  unfold bind at 1. unfold Zoon.byteseq at 1. simpl.
  rewrite lookup_insert_eq. simpl.
  unfold bind at 1.
  rewrite (array_getitem_error _ _ bs); simpl;
    [reflexivity | apply lookup_insert_eq | exact Hj].
Qed.

(** X6. A negative position counts from the end, as a negative index
    does: for [-len <= p < 0], [mutate(p)] is [mutate(len + p)], so
    [mutate(-1)] flips the least significant bit of the last byte; below
    [-len] the call raises IndexError. *)
Theorem mutate_negative (w : world) (e : loc) (bs : list byte) (p : Z) :
  entity w e bs → p < 0 →
  let len := 8 * Z.of_nat (length bs) in
  (- len <= p → ∃ w' m, Zoon.mutate e p w = (w', inr m) ∧
                        Zoon.mutate e (len + p) w = (w', inr m))
  ∧ (p < - len → ∃ w', Zoon.mutate e p w = (w', inl IndexError)).
Proof.
  intros He Hp len. subst len.
  set (n := Z.of_nat (length bs)) in *.
  assert ((8 * n + p) / 8 = n + p / 8) as Hdiv.
  { rewrite Z.add_comm, Z.mul_comm, Z.div_add by lia. lia. }
  assert ((8 * n + p) mod 8 = p mod 8) as Hmod.
  { rewrite Z.add_comm, Z.mul_comm, Z.mod_add by lia. reflexivity. }
  assert (p / 8 < 0) as Hq by (apply Z.div_lt_upper_bound; lia).
  assert (norm_index (p / 8) n = p / 8 + n) as Hnorm.
  { unfold norm_index. destruct (Z.ltb_spec (p / 8) 0); [reflexivity|lia]. }
  split.
  - intros Hlo.
    assert (- n <= p / 8) as Hq' by (apply Z.div_le_lower_bound; lia).
    destruct (mutate_at w e bs p He) as (b & b' & Hb & Hv & Hm).
    { fold n. rewrite Hnorm. lia. }
    destruct (mutate_in_range w e bs (8 * n + p) He)
      as (c & c' & Hc & Hv' & Hm'); [fold n; lia|].
    fold n in Hb, Hm. rewrite Hnorm in Hb, Hm.
    rewrite Hdiv, Hmod in *. rewrite (Z.add_comm n) in Hc, Hm'.
    assert (c = b) as -> by congruence.
    assert (c' = b') as -> by (apply byte_val_inj; congruence).
    eexists _, _. split; [exact Hm | exact Hm'].
  - intros Hlo. eexists. apply (mutate_index_error w e bs p He).
    fold n. rewrite Hnorm.
    assert (p / 8 < - n) by (apply Z.div_lt_upper_bound; lia). lia.
Qed.

Lemma mutate_negative_witness :
  (∃ w' m, Zoon.mutate zoon_a (-1) world_a = (w', inr m) ∧
           Zoon.mutate zoon_a 7 world_a = (w', inr m))
  ∧ ∃ w', Zoon.mutate zoon_a (-9) world_a = (w', inl IndexError).
Proof.
  assert (entity world_a zoon_a ["a"%byte]) as He.
  { eexists. split; vm_compute; reflexivity. }
  split.
  - apply (proj1 (mutate_negative world_a zoon_a ["a"%byte] (-1) He
                    ltac:(lia))).
    simpl. lia.
  - apply (proj2 (mutate_negative world_a zoon_a ["a"%byte] (-9) He
                    ltac:(lia))).
    simpl. lia.
Defined.

Lemma lxor_cancel_l (a x y : Z) : Z.lxor a x = Z.lxor a y → x = y.
Proof.
  intros H.
  rewrite <- (Z.lxor_0_l x), <- (Z.lxor_0_l y), <- (Z.lxor_nilpotent a).
  rewrite !Z.lxor_assoc, H. reflexivity.
Qed.

Lemma lxor_mask_neq (a k : Z) : 0 <= k → Z.lxor a (2 ^ k) ≠ a.
Proof.
  intros Hk H. rewrite <- (Z.lxor_0_r a) in H at 2.
  apply lxor_cancel_l in H.
  pose proof (Z.pow_pos_nonneg 2 k ltac:(lia) Hk). lia.
Qed.

Lemma valid_position (bs : list byte) (p : Z) :
  0 <= p < 8 * Z.of_nat (length bs) →
  0 <= p / 8 < Z.of_nat (length bs) ∧ 0 <= p mod 8 < 8.
Proof.
  intros Hp. split; [|apply Z.mod_pos_bound; lia].
  split; [apply Z.div_pos; lia | apply Z.div_lt_upper_bound; lia].
Qed.

(** X7. A mutant never equals its parent: at a valid position [mutate]
    returns a Zoon of the same number of bytes whose byte sequence differs
    from the receiver's. *)
Theorem mutant_differs (w : world) (e : loc) (bs : list byte) (p : Z) :
  entity w e bs → 0 <= p < 8 * Z.of_nat (length bs) →
  ∃ w' m bs',
    Zoon.mutate e p w = (w', inr m) ∧ entity w' m bs' ∧
    length bs' = length bs ∧ bs' ≠ bs.
Proof.
  intros He Hp.
  destruct (mutate_in_range w e bs p He Hp) as (b & b' & Hb & Hv & Hm).
  destruct (valid_position bs p Hp) as [Hq Hr].
  eexists _, _, _. split; [exact Hm|].
  split; [apply copy_world_entity|]. split; [apply length_insert|].
  intros E.
  assert (<[Z.to_nat (p / 8) := b']> bs !! Z.to_nat (p / 8) = Some b')
    as Hl by (apply list_lookup_insert_eq; lia).
  rewrite E, Hb in Hl. injection Hl as <-.
  apply (lxor_mask_neq (byte_val b) (7 - p mod 8)); [lia | congruence].
Qed.

Lemma mutant_differs_witness :
  ∃ w' m bs',
    Zoon.mutate zoon_a 3 world_a = (w', inr m) ∧ entity w' m bs' ∧
    bs' ≠ ["a"%byte].
Proof.
  assert (entity world_a zoon_a ["a"%byte]) as He.
  { eexists. split; vm_compute; reflexivity. }
  destruct (mutant_differs world_a zoon_a ["a"%byte] 3 He)
    as (w' & m & bs' & Hm & He' & _ & Hne); [simpl; lia|].
  exists w', m, bs'. repeat split; assumption.
Defined.

(** X8. Distinct valid positions give distinct mutants: the byte
    sequences returned by [mutate(p)] and [mutate(q)] on the same receiver
    differ whenever [p] and [q] do. *)
Theorem mutate_injective (w : world) (e : loc) (bs : list byte)
    (p q : Z) :
  entity w e bs →
  0 <= p < 8 * Z.of_nat (length bs) →
  0 <= q < 8 * Z.of_nat (length bs) →
  p ≠ q →
  ∃ wp mp bp wq mq bq,
    Zoon.mutate e p w = (wp, inr mp) ∧ entity wp mp bp ∧
    Zoon.mutate e q w = (wq, inr mq) ∧ entity wq mq bq ∧
    bp ≠ bq.
Proof.
  intros He Hp Hq Hne.
  destruct (mutate_in_range w e bs p He Hp) as (b & b' & Hb & Hv & Hm).
  destruct (mutate_in_range w e bs q He Hq) as (c & c' & Hc & Hv' & Hm').
  destruct (valid_position bs p Hp) as [Hp1 Hp2].
  destruct (valid_position bs q Hq) as [Hq1 Hq2].
  eexists _, _, _, _, _, _. split; [exact Hm|].
  split; [apply copy_world_entity|]. split; [exact Hm'|].
  split; [apply copy_world_entity|].
  intros E.
  assert (<[Z.to_nat (p / 8) := b']> bs !! Z.to_nat (p / 8) = Some b')
    as Hl by (apply list_lookup_insert_eq; lia).
  rewrite E in Hl.
  destruct (decide (Z.to_nat (q / 8) = Z.to_nat (p / 8))) as [Ek | Ek].
  - rewrite Ek in Hl, Hc.
    rewrite list_lookup_insert_eq in Hl by lia. injection Hl as ->.
    assert (c = b) as -> by congruence.
    rewrite Hv in Hv'. apply lxor_cancel_l in Hv'.
    apply Z.pow_inj_r in Hv'; [|lia..].
    pose proof (Z.div_mod p 8). pose proof (Z.div_mod q 8). lia.
  - rewrite list_lookup_insert_ne in Hl by exact Ek.
    rewrite Hb in Hl. injection Hl as <-.
    apply (lxor_mask_neq (byte_val b) (7 - p mod 8)); [lia | congruence].
Qed.

Lemma mutate_injective_witness :
  ∃ wp mp bp wq mq bq,
    Zoon.mutate zoon_a 0 world_a = (wp, inr mp) ∧ entity wp mp bp ∧
    Zoon.mutate zoon_a 1 world_a = (wq, inr mq) ∧ entity wq mq bq ∧
    bp ≠ bq.
Proof.
  assert (entity world_a zoon_a ["a"%byte]) as He.
  { eexists. split; vm_compute; reflexivity. }
  apply (mutate_injective world_a zoon_a ["a"%byte] 0 1 He).
  - simpl. lia.
  - simpl. lia.
  - discriminate.
Defined.

(** X9. Point mutations commute: mutating at [p] and then the mutant at
    [q] gives the same bytes as mutating at [q] and then at [p]. *)
Theorem mutate_commutes (w : world) (e : loc) (bs : list byte) (p q : Z) :
  entity w e bs →
  0 <= p < 8 * Z.of_nat (length bs) →
  0 <= q < 8 * Z.of_nat (length bs) →
  ∃ w1 m1 w2 m2 v1 n1 v2 n2 bs',
    Zoon.mutate e p w = (w1, inr m1) ∧ Zoon.mutate m1 q w1 = (w2, inr m2) ∧
    Zoon.mutate e q w = (v1, inr n1) ∧ Zoon.mutate n1 p v1 = (v2, inr n2) ∧
    entity w2 m2 bs' ∧ entity v2 n2 bs'.
Proof.
  intros He Hp Hq.
  destruct (valid_position bs p Hp) as [Hp1 _].
  destruct (valid_position bs q Hq) as [Hq1 _].
  destruct (mutate_in_range w e bs p He Hp) as (b & b' & Hb & Hv & Hm).
  destruct (mutate_in_range w e bs q He Hq) as (c & c' & Hc & Hw & Hn).
  set (kp := Z.to_nat (p / 8)) in *. set (kq := Z.to_nat (q / 8)) in *.
  destruct (mutate_in_range _ _ _ q (copy_world_entity w e (<[kp := b']> bs)))
    as (c1 & c1' & Hc1 & Hw1 & Hm2); [rewrite length_insert; exact Hq|].
  destruct (mutate_in_range _ _ _ p (copy_world_entity w e (<[kq := c']> bs)))
    as (b1 & b1' & Hb1 & Hv1 & Hn2); [rewrite length_insert; exact Hp|].
  fold kp kq in Hc1, Hm2, Hb1, Hn2.
  eexists _, _, _, _, _, _, _, _, _.
  split; [exact Hm|]. split; [exact Hm2|].
  split; [exact Hn|]. split; [exact Hn2|].
  split; [apply copy_world_entity|].
  assert (<[kp := b1']> (<[kq := c']> bs) = <[kq := c1']> (<[kp := b']> bs))
    as ->; [|apply copy_world_entity].
  destruct (decide (kp = kq)) as [Ek | Ek].
  - rewrite <- Ek in *.
    rewrite list_lookup_insert_eq in Hc1, Hb1 by lia.
    injection Hc1 as <-. injection Hb1 as <-.
    assert (c = b) as -> by congruence.
    rewrite !list_insert_insert_eq. f_equal.
    apply byte_val_inj. rewrite Hv1, Hw1, Hv, Hw.
    rewrite !Z.lxor_assoc. f_equal. apply Z.lxor_comm.
  - rewrite list_lookup_insert_ne in Hc1, Hb1 by auto.
    assert (c1 = c) as -> by congruence.
    assert (b1 = b) as -> by congruence.
    assert (c1' = c') as -> by (apply byte_val_inj; congruence).
    assert (b1' = b') as -> by (apply byte_val_inj; congruence).
    apply list_insert_insert_ne. auto.
Qed.

Lemma mutate_commutes_witness :
  ∃ w1 m1 w2 m2 v1 n1 v2 n2 bs',
    Zoon.mutate zoon_a 0 world_a = (w1, inr m1) ∧
    Zoon.mutate m1 5 w1 = (w2, inr m2) ∧
    Zoon.mutate zoon_a 5 world_a = (v1, inr n1) ∧
    Zoon.mutate n1 0 v1 = (v2, inr n2) ∧
    entity w2 m2 bs' ∧ entity v2 n2 bs'.
Proof.
  assert (entity world_a zoon_a ["a"%byte]) as He.
  { eexists. split; vm_compute; reflexivity. }
  apply (mutate_commutes world_a zoon_a ["a"%byte] 0 5 He).
  - simpl. lia.
  - simpl. lia.
Defined.

(** ** [delete] at any integers *)

Lemma slice_same (bs : list byte) (k : Z) :
  slice_to bs k ++ slice_from bs k = bs.
Proof. unfold slice_to, slice_from. apply take_drop. Qed.

(** X10. Deleting an empty range copies: for every integer [k], negative
    or beyond the end, [delete(k, k)] returns a new Zoon with the bytes
    of the receiver. *)
Theorem delete_nothing (w : world) (e : loc) (bs : list byte) (k : Z) :
  entity w e bs →
  ∃ w' m, Zoon.delete e k k w = (w', inr m) ∧
          entity w' m bs ∧ entity w' e bs ∧ m ≠ e.
Proof.
  intros He. eexists _, _.
  split; [apply (delete_total w e bs k k He)|].
  rewrite slice_same. split; [apply delete_world_entity|].
  split.
  - eapply extends_entity; [apply delete_world_extends | exact He].
  - destruct He as (o & Ho & _). eapply fresh_ne. exact Ho.
Qed.

Lemma delete_nothing_witness :
  ∃ w' m, Zoon.delete zoon_a (-3) (-3) world_a = (w', inr m) ∧
          entity w' m ["a"%byte].
Proof.
  assert (entity world_a zoon_a ["a"%byte]) as He.
  { eexists. split; vm_compute; reflexivity. }
  destruct (delete_nothing world_a zoon_a ["a"%byte] (-3) He)
    as (w' & m & Hd & Hm & _).
  exists w', m. split; assumption.
Defined.

(** X11. Negative arguments of [delete] count from the end, as slice
    bounds do: a [start] or [stop] in [-n, 0) acts as that number plus the
    byte length [n], and one below [-n] acts as 0. *)
Theorem delete_negative (w : world) (e : loc) (bs : list byte)
    (start stop : Z) :
  entity w e bs →
  let n := Z.of_nat (length bs) in
  (- n <= start < 0 →
   Zoon.delete e start stop w = Zoon.delete e (n + start) stop w)
  ∧ (start < - n → Zoon.delete e start stop w = Zoon.delete e 0 stop w)
  ∧ (- n <= stop < 0 →
     Zoon.delete e start stop w = Zoon.delete e start (n + stop) w)
  ∧ (stop < - n → Zoon.delete e start stop w = Zoon.delete e start 0 w).
Proof.
  intros He n.
  assert (∀ k, - n <= k < 0 → slice_bound k n = slice_bound (n + k) n) as H1.
  { intros k Hk. unfold slice_bound.
    destruct (Z.ltb_spec k 0); [|lia].
    destruct (Z.ltb_spec (n + k) 0); [lia|]. f_equal. lia. }
  assert (∀ k, k < - n → slice_bound k n = slice_bound 0 n) as H2.
  { intros k Hk. unfold slice_bound.
    destruct (Z.ltb_spec k 0); [|lia]. simpl. f_equal. lia. }
  repeat split; intros Hk; rewrite !(delete_total w e bs) by exact He;
    unfold slice_to, slice_from; fold n.
  - rewrite (H1 start Hk). reflexivity.
  - rewrite (H2 start Hk). reflexivity.
  - rewrite (H1 stop Hk). reflexivity.
  - rewrite (H2 stop Hk). reflexivity.
Qed.

Lemma delete_negative_witness :
  Zoon.delete zoon_a (-1) 1 world_a = Zoon.delete zoon_a 0 1 world_a.
Proof.
  assert (entity world_a zoon_a ["a"%byte]) as He.
  { eexists. split; vm_compute; reflexivity. }
  apply (proj1 (delete_negative world_a zoon_a ["a"%byte] (-1) 1 He)).
  simpl. lia.
Defined.

(** X12. Deleting every byte gives a Zoon of length 0, and on it
    [mutate] raises IndexError at every position, negative ones
    included. *)
Theorem delete_all_then_mutate (w : world) (e : loc) (bs : list byte) :
  entity w e bs →
  ∃ w1 m,
    Zoon.delete e 0 (Z.of_nat (length bs)) w = (w1, inr m) ∧
    entity w1 m [] ∧
    Zoon.__len__ m w1 = (w1, inr 0) ∧
    ∀ p, ∃ w2, Zoon.mutate m p w1 = (w2, inl IndexError).
Proof.
  intros He. eexists _, _.
  split; [apply (delete_total w e bs _ _ He)|].
  rewrite slice_to_nonneg, slice_from_nonneg by lia.
  rewrite Nat2Z.id, drop_all. simpl.
  pose proof (delete_world_entity w e bs []) as Hm.
  split; [exact Hm|]. split; [apply (len_entity _ _ _ Hm)|].
  intros p. eexists. apply (mutate_index_error _ _ _ p Hm).
  simpl. lia.
Qed.

Lemma delete_all_then_mutate_witness :
  ∃ w1 m,
    Zoon.delete zoon_a 0 1 world_a = (w1, inr m) ∧ entity w1 m [] ∧
    ∃ w2, Zoon.mutate m 0 w1 = (w2, inl IndexError).
Proof.
  assert (entity world_a zoon_a ["a"%byte]) as He.
  { eexists. split; vm_compute; reflexivity. }
  destruct (delete_all_then_mutate world_a zoon_a ["a"%byte] He)
    as (w1 & m & Hd & Hm & _ & Hmut).
  exists w1, m. split; [exact Hd|]. split; [exact Hm|]. apply Hmut.
Defined.

(** ** The [byteseq] property *)

Lemma ints_to_bytes (l : list Z) :
  Forall (λ v, 0 <= v <= 255) l →
  ∃ bs, mapM byte_of_int l = Some bs ∧ map byte_val bs = l.
Proof.
  intros H.
  assert (∃ bs, Forall2 (λ x y, byte_of_int x = Some y) l bs
                ∧ map byte_val bs = l) as (bs & H2 & Hm).
  { induction H as [|v l Hv _ (bs & H2 & Hm)].
    - exists []. split; constructor.
    - destruct (byte_of_int_Some v Hv) as (b & Hb & Hbv).
      exists (b :: bs). split; [constructor; assumption|].
      simpl. congruence. }
  exists bs. split; [apply mapM_Some; exact H2 | exact Hm].
Qed.

Lemma ints_overflow (l : list Z) :
  Exists (λ v, v < 0 ∨ 255 < v) l → mapM byte_of_int l = None.
Proof.
  intros H. apply mapM_None_2. eapply Exists_impl; [exact H|].
  intros v Hv. unfold byte_of_int. simpl in Hv.
  destruct (Z.leb_spec 0 v); [|reflexivity].
  destruct (Z.leb_spec v 255); [lia | reflexivity].
Qed.

(** X13. Assigning a list of ints to [byteseq] binds the Zoon to a new
    array holding exactly these values when all are in [0, 255], the
    array it had being left as it was; when one is not, the assignment
    raises OverflowError and the Zoon keeps its bytes. *)
Theorem byteseq_setter_values (w : world) (e : loc) (bs : list byte)
    (new_list : list Z) :
  entity w e bs →
  (Forall (λ v, 0 <= v <= 255) new_list →
   ∃ w' bs' o',
     Zoon.byteseq_setter e new_list w = (w', inr tt) ∧
     entity w' e bs' ∧ map byte_val bs' = new_list ∧
     arrays w ⊆ arrays w' ∧
     zoons w' !! e = Some o' ∧ arrays w !! __byteseq o' = None)
  ∧ (Exists (λ v, v < 0 ∨ 255 < v) new_list →
     ∃ w', Zoon.byteseq_setter e new_list w = (w', inl OverflowError) ∧
           entity w' e bs ∧ extends w w').
Proof.
  intros He. pose proof He as (o & Ho & Hbs). split.
  - intros Hall. destruct (ints_to_bytes new_list Hall) as (bs' & HM & Hv).
    eexists _, bs', _. split.
    { unfold Zoon.byteseq_setter, array_of_ints. rewrite HM.
      unfold bind, array_new, array_extend, ret, set_arrays, set_zoons.
      simpl. rewrite lookup_insert_eq. simpl. rewrite Ho.
      rewrite insert_insert_eq. reflexivity. }
    simpl. split; [|split; [exact Hv|split; [apply insert_fresh_subseteq|]]].
    + eexists. split; simpl; [apply lookup_insert_eq|].
      simpl. apply lookup_insert_eq.
    + split; [apply lookup_insert_eq | apply fresh_lookup].
  - intros Hex. eexists. split.
    { unfold Zoon.byteseq_setter, array_of_ints.
      rewrite (ints_overflow new_list Hex).
      unfold bind, array_new, raise, set_arrays. simpl. reflexivity. }
    assert (extends w
              {| arrays := <[fresh (dom (arrays w)) := []]> (arrays w);
                 zoons := zoons w; files := files w |}) as Hext.
    { repeat split; simpl; [apply insert_fresh_subseteq | reflexivity]. }
    split; [eapply extends_entity; eassumption | exact Hext].
Qed.

Lemma byteseq_setter_values_witness :
  (∃ w' bs', Zoon.byteseq_setter zoon_a [0; 255] world_a = (w', inr tt) ∧
             entity w' zoon_a bs' ∧ map byte_val bs' = [0; 255])
  ∧ ∃ w', Zoon.byteseq_setter zoon_a [0; 256] world_a
          = (w', inl OverflowError) ∧ entity w' zoon_a ["a"%byte].
Proof.
  assert (entity world_a zoon_a ["a"%byte]) as He.
  { eexists. split; vm_compute; reflexivity. }
  split.
  - destruct (proj1 (byteseq_setter_values world_a zoon_a ["a"%byte]
                       [0; 255] He))
      as (w' & bs' & o' & Hs & He' & Hv & _).
    { repeat constructor; lia. }
    exists w', bs'. repeat split; assumption.
  - destruct (proj2 (byteseq_setter_values world_a zoon_a ["a"%byte]
                       [0; 256] He))
      as (w' & Hs & He' & _).
    { right. left. lia. }
    exists w'. split; assumption.
Defined.

(** X14. The [byteseq] getter hands out the array of the Zoon itself,
    not a copy: an item assignment through it, at an index inside the
    array and with a value in [0, 255], changes that byte of the Zoon in
    place. *)
Theorem byteseq_is_live (w : world) (e : loc) (bs : list byte)
    (i v : Z) :
  entity w e bs →
  0 <= i < Z.of_nat (length bs) → 0 <= v <= 255 →
  ∃ a w' b,
    Zoon.byteseq e w = (w, inr a) ∧
    array_setitem a i v w = (w', inr tt) ∧
    byte_val b = v ∧
    entity w' e (<[Z.to_nat i := b]> bs).
Proof.
  intros (o & Ho & Hbs) Hi Hv.
  destruct (byte_of_int_Some v Hv) as (b & Hb & Hbv).
  exists (__byteseq o), (set_arrays <[__byteseq o := <[Z.to_nat i := b]> bs]> w), b.
  split; [unfold Zoon.byteseq; rewrite Ho; reflexivity|].
  split; [apply (array_setitem_ok w _ bs i v b Hbs Hi Hb)|].
  split; [exact Hbv|].
  exists o. split; [exact Ho|]. simpl. apply lookup_insert_eq.
Qed.

Lemma byteseq_is_live_witness :
  ∃ a w' b,
    Zoon.byteseq zoon_a world_a = (world_a, inr a) ∧
    array_setitem a 0 98 world_a = (w', inr tt) ∧
    byte_val b = 98 ∧
    entity w' zoon_a (<[Z.to_nat 0 := b]> ["a"%byte]).
Proof.
  assert (entity world_a zoon_a ["a"%byte]) as He.
  { eexists. split; vm_compute; reflexivity. }
  apply (byteseq_is_live world_a zoon_a ["a"%byte] 0 98 He).
  - simpl. lia.
  - lia.
Defined.

(** ** [__repr__] *)

Lemma repr_of_copy (w : world) (m : loc) (o : zoon_obj) (z : loc) :
  zoons w !! m = Some o → _initializer o = PyZoon z →
  ZoonMethods.__repr__ m w = (w, inl TypeError).
Proof.
  intros Ho Hi. unfold ZoonMethods.__repr__. rewrite Ho, Hi. reflexivity.
Qed.

(** X15. [repr] of a Zoon built from a string [s] is [zoon.Zoon('s')];
    [repr] of a Zoon built from another Zoon, as every result of [mutate]
    and of [delete] is, raises TypeError, because [__str__] returns
    [None]. *)
Theorem repr_of_zoon (w : world) :
  (∀ s w' e, Zoon.new (PyStr s) w = (w', inr e) →
     ZoonMethods.__repr__ e w'
     = (w', inr ("zoon.Zoon('" ++ s ++ "')")%string))
  ∧ (∀ e bs p, entity w e bs → 0 <= p < 8 * Z.of_nat (length bs) →
       ∃ w' m, Zoon.mutate e p w = (w', inr m) ∧
               ZoonMethods.__repr__ m w' = (w', inl TypeError))
  ∧ (∀ e bs start stop, entity w e bs →
       ∃ w' m, Zoon.delete e start stop w = (w', inr m) ∧
               ZoonMethods.__repr__ m w' = (w', inl TypeError)).
Proof.
  split; [|split].
  - intros s w' e Hn. pose proof (new_str w s) as Hs. simpl in Hs.
    rewrite Hn in Hs.
    destruct (if Zoon.chars_subset_01 s then to_bytes s
              else inl AssertionError) as [x|bs]; [discriminate|].
    injection Hs as -> ->.
    unfold ZoonMethods.__repr__. simpl. rewrite lookup_insert_eq.
    reflexivity.
  - intros e bs p He Hp.
    destruct (mutate_in_range w e bs p He Hp) as (b & b' & _ & _ & Hm).
    eexists _, _. split; [exact Hm|].
    eapply repr_of_copy; [apply lookup_insert_eq | reflexivity].
  - intros e bs start stop He.
    eexists _, _. split; [apply (delete_total w e bs start stop He)|].
    eapply repr_of_copy; [apply lookup_insert_eq | reflexivity].
Qed.

Lemma repr_of_zoon_witness :
  ZoonMethods.__repr__ zoon_a world_a
  = (world_a, inr "zoon.Zoon('01100001')")
  ∧ ∃ w' m, Zoon.mutate zoon_a 0 world_a = (w', inr m) ∧
            ZoonMethods.__repr__ m w' = (w', inl TypeError).
Proof.
  assert (entity world_a zoon_a ["a"%byte]) as He.
  { eexists. split; vm_compute; reflexivity. }
  split.
  - apply (proj1 (repr_of_zoon empty_world) "01100001" world_a zoon_a).
    vm_compute. reflexivity.
  - apply (proj1 (proj2 (repr_of_zoon world_a)) zoon_a ["a"%byte] 0 He).
    simpl. lia.
Defined.

(** ** [run] and [mutate_and_run] *)

Section exec_properties.
Variable runner : string → Z → machine → machine * (exn + RunResult).
Variable joinpath : string → string → string.

Lemma run_not_positive (s : machine) (e : loc) (path args : string)
    (timeout : Z) :
  timeout <= 0 →
  ZoonMethods.run runner e path args timeout s = (s, inl AssertionError).
Proof.
  intros Ht. unfold ZoonMethods.run.
  destruct (Z.gtb_spec timeout 0); [lia | reflexivity].
Qed.

Lemma run_open_refused (s : machine) (e : loc) (path args : string)
    (timeout : Z) (x : exn) :
  0 < timeout → open_error s path = Some x →
  ZoonMethods.run runner e path args timeout s = (s, inl x).
Proof.
  intros Ht Hopen. unfold ZoonMethods.run.
  destruct (Z.gtb_spec timeout 0); [|lia].
  rewrite (write_refused _ _ _ _ Hopen). reflexivity.
Qed.

Lemma run_chmod_refused (s : machine) (e : loc) (bs : list byte)
    (path args : string) (timeout : Z) (x : exn) :
  entity (store s) e bs → 0 < timeout →
  open_error s path = None → chmod_error s path = Some x →
  ZoonMethods.run runner e path args timeout s
  = (with_store s (ZoonMethods.set_file path bs (store s)), inl x).
Proof.
  intros He Ht Hopen Hch. unfold ZoonMethods.run.
  destruct (Z.gtb_spec timeout 0); [|lia].
  rewrite (write_entity _ _ _ path He Hopen). simpl. rewrite Hch.
  reflexivity.
Qed.

Lemma run_positive (s : machine) (e : loc) (bs : list byte)
    (path args : string) (timeout : Z) :
  entity (store s) e bs → 0 < timeout →
  open_error s path = None → chmod_error s path = None →
  ZoonMethods.run runner e path args timeout s
  = runner (path ++ " " ++ args)%string timeout
      (with_modes (with_store s (ZoonMethods.set_file path bs (store s)))
         (<[path := mode_755]> (modes s))).
Proof.
  intros He Ht Hopen Hch. unfold ZoonMethods.run.
  destruct (Z.gtb_spec timeout 0); [|lia].
  rewrite (write_entity _ _ _ path He Hopen). simpl. rewrite Hch.
  reflexivity.
Qed.

(** X16. [run] with a timeout that is not positive raises AssertionError
    before anything is written. With a positive timeout: if the path
    cannot be opened for writing it raises what [open] raises, nothing
    being changed and the runner not called; if [chmod] fails it raises
    that error after the file is written, the runner not called;
    otherwise the runner is called with the command [path], a space,
    [args], on a machine where the file of that path holds the bytes of
    the Zoon with mode 0o755, every other file and mode and every object
    being as before. *)
Theorem run_contract (s : machine) (e : loc) (bs : list byte)
    (path args : string) (timeout : Z) :
  (timeout <= 0 →
   ZoonMethods.run runner e path args timeout s = (s, inl AssertionError))
  ∧ (0 < timeout → ∀ x, open_error s path = Some x →
     ZoonMethods.run runner e path args timeout s = (s, inl x))
  ∧ (0 < timeout → entity (store s) e bs → open_error s path = None →
     (∀ x, chmod_error s path = Some x →
        ∃ s', ZoonMethods.run runner e path args timeout s = (s', inl x) ∧
              files (store s') !! path = Some bs ∧ modes s' = modes s)
     ∧ (chmod_error s path = None →
        ∃ s',
          ZoonMethods.run runner e path args timeout s
          = runner (path ++ " " ++ args)%string timeout s' ∧
          files (store s') !! path = Some bs ∧
          modes s' !! path = Some mode_755 ∧
          (∀ q, q ≠ path →
                files (store s') !! q = files (store s) !! q ∧
                modes s' !! q = modes s !! q) ∧
          arrays (store s') = arrays (store s) ∧
          zoons (store s') = zoons (store s))).
Proof.
  split; [apply run_not_positive|].
  split; [intros Ht x; apply run_open_refused; exact Ht|].
  intros Ht He Hopen. split.
  - intros x Hch. eexists.
    split; [apply (run_chmod_refused s e bs); assumption|]. simpl.
    split; [apply lookup_insert_eq | reflexivity].
  - intros Hch. eexists.
    split; [apply (run_positive s e bs); assumption|]. simpl.
    split; [apply lookup_insert_eq|].
    split; [apply lookup_insert_eq|].
    split; [|split; reflexivity].
    intros q Hq. split; apply lookup_insert_ne; auto.
Qed.

(** X17. [mutate_and_run] at a position at or beyond the length in bits
    raises IndexError without writing a file. At a valid position, with
    [path] standing for [dir_path / str(position)]: a timeout that is not
    positive raises AssertionError, and a path that cannot be opened for
    writing raises what [open] raises, in both cases without writing a
    file or changing a mode; if [chmod] fails its error is raised after
    the mutant is written; otherwise the runner is called with the
    command [path], a space, [cmd_args], on a machine where that file
    holds the bytes of the receiver with the bit of [position] flipped,
    with mode 0o755. The receiver keeps its bytes up to the call of the
    runner. *)
Theorem mutate_and_run_contract (s : machine) (e : loc) (bs : list byte)
    (position : Z) (dir_path cmd_args : string) (timeout : Z) :
  entity (store s) e bs →
  let path := joinpath dir_path (str_of_int position) in
  let call := ZoonMethods.mutate_and_run runner joinpath e position
                dir_path cmd_args timeout s in
  (8 * Z.of_nat (length bs) <= position →
   ∃ s', call = (s', inl IndexError) ∧
         files (store s') = files (store s) ∧ modes s' = modes s ∧
         entity (store s') e bs)
  ∧ (0 <= position < 8 * Z.of_nat (length bs) →
     ∃ b b',
       bs !! Z.to_nat (position / 8) = Some b ∧
       byte_val b' = Z.lxor (byte_val b) (2 ^ (7 - position mod 8)) ∧
       let mutated := <[Z.to_nat (position / 8) := b']> bs in
       (timeout <= 0 →
        ∃ s', call = (s', inl AssertionError) ∧
              files (store s') = files (store s) ∧ modes s' = modes s ∧
              entity (store s') e bs)
       ∧ (0 < timeout → ∀ x, open_error s path = Some x →
          ∃ s', call = (s', inl x) ∧
                files (store s') = files (store s) ∧ modes s' = modes s ∧
                entity (store s') e bs)
       ∧ (0 < timeout → open_error s path = None →
          (∀ x, chmod_error s path = Some x →
             ∃ s', call = (s', inl x) ∧
                   files (store s') !! path = Some mutated ∧
                   modes s' = modes s ∧ entity (store s') e bs)
          ∧ (chmod_error s path = None →
             ∃ s', call = runner (path ++ " " ++ cmd_args)%string timeout s'
                   ∧ files (store s') !! path = Some mutated ∧
                   modes s' !! path = Some mode_755 ∧
                   entity (store s') e bs))).
Proof.
  intros He path call. subst call.
  assert (∀ l, entity (copy_world (store s) e l) e bs) as Hkeep.
  { intros l. eapply extends_entity; [apply copy_world_extends | exact He]. }
  assert (∀ l, entity (ZoonMethods.set_file path
                         (<[Z.to_nat (position / 8) := l]> bs)
                         (copy_world (store s) e
                            (<[Z.to_nat (position / 8) := l]> bs))) e bs)
    as Hkeep'.
  { intros l. destruct (Hkeep (<[Z.to_nat (position / 8) := l]> bs))
      as (o & Ho & Hbs). exists o. split; assumption. }
  split.
  - intros Hp. eexists. split.
    { unfold ZoonMethods.mutate_and_run.
      rewrite (mutate_beyond _ _ _ _ He Hp). reflexivity. }
    simpl. repeat split. apply Hkeep.
  - intros Hp.
    destruct (mutate_in_range _ _ _ _ He Hp) as (b & b' & Hb & Hv & Hm).
    exists b, b'. split; [exact Hb|]. split; [exact Hv|].
    unfold ZoonMethods.mutate_and_run. rewrite Hm. fold path.
    pose proof (copy_world_entity (store s) e
                  (<[Z.to_nat (position / 8) := b']> bs)) as Hmut.
    split; [|split].
    + intros Ht. eexists. split; [apply run_not_positive; exact Ht|].
      simpl. repeat split. apply Hkeep.
    + intros Ht x Hopen. eexists.
      split; [apply run_open_refused; [exact Ht | exact Hopen]|].
      simpl. repeat split. apply Hkeep.
    + intros Ht Hopen. split.
      * intros x Hch. eexists. split.
        { eapply run_chmod_refused;
            [exact Hmut | exact Ht | exact Hopen | exact Hch]. }
        simpl. split; [apply lookup_insert_eq|].
        split; [reflexivity | apply Hkeep'].
      * intros Hch. eexists. split.
        { eapply run_positive;
            [exact Hmut | exact Ht | exact Hopen | exact Hch]. }
        simpl. split; [apply lookup_insert_eq|].
        split; [apply lookup_insert_eq | apply Hkeep'].
Qed.

End exec_properties.

(** A runner that reports what it is asked to run and leaves the machine
    alone, and a path join, to evaluate the two theorems above. *)
Lemma run_contract_witness :
  let runner := λ (command : string) (_ : Z) (s : machine),
                  (s, inr ((0, "success", command, EmptyString)
                           : RunResult)) in
  ZoonMethods.run runner zoon_a "/tmp/0" "-v" 0 machine_a
  = (machine_a, inl AssertionError)
  ∧ ZoonMethods.run runner zoon_a "nodir/0" "-v" 1 machine_a
    = (machine_a, inl FileNotFoundError)
  ∧ ∃ s', ZoonMethods.run runner zoon_a "/tmp/0" "-v" 1 machine_a
          = (s', inr (0, "success", "/tmp/0 -v", EmptyString)) ∧
          files (store s') !! "/tmp/0" = Some ["a"%byte].
Proof.
  intros runner.
  assert (entity (store machine_a) zoon_a ["a"%byte]) as He.
  { eexists. split; vm_compute; reflexivity. }
  split; [|split].
  - apply (proj1 (run_contract runner machine_a zoon_a ["a"%byte]
                    "/tmp/0" "-v" 0)).
    lia.
  - apply (proj1 (proj2 (run_contract runner machine_a zoon_a ["a"%byte]
                           "nodir/0" "-v" 1))).
    + lia.
    + reflexivity.
  - destruct (proj2 (proj2 (proj2 (run_contract runner machine_a zoon_a
                                     ["a"%byte] "/tmp/0" "-v" 1))
                             ltac:(lia) He eq_refl) eq_refl)
      as (s' & Hr & Hf & _).
    exists s'. split; [|exact Hf]. rewrite Hr. reflexivity.
Defined.

Lemma mutate_and_run_contract_witness :
  let runner := λ (command : string) (_ : Z) (s : machine),
                  (s, inr ((0, "success", command, EmptyString)
                           : RunResult)) in
  let joinpath := λ d name : string, (d ++ "/" ++ name)%string in
  (∃ s', ZoonMethods.mutate_and_run runner joinpath zoon_a 8 "/tmp" "-v" 1
           machine_a = (s', inl IndexError) ∧
         files (store s') = files (store machine_a))
  ∧ (∃ s', ZoonMethods.mutate_and_run runner joinpath zoon_a 0 "nodir" "-v"
             1 machine_a = (s', inl FileNotFoundError) ∧
           files (store s') = files (store machine_a))
  ∧ ∃ s', ZoonMethods.mutate_and_run runner joinpath zoon_a 0 "/tmp" "-v" 1
            machine_a
          = (s', inr (0, "success", "/tmp/0 -v", EmptyString)) ∧
          files (store s') !! "/tmp/0" = Some ["225"%byte].
Proof.
  intros runner joinpath.
  assert (entity (store machine_a) zoon_a ["a"%byte]) as He.
  { eexists. split; vm_compute; reflexivity. }
  split; [|split].
  - destruct (proj1 (mutate_and_run_contract runner joinpath machine_a
                       zoon_a ["a"%byte] 8 "/tmp" "-v" 1 He))
      as (s' & Hr & Hf & _); [simpl; lia|].
    exists s'. split; assumption.
  - destruct (proj2 (mutate_and_run_contract runner joinpath machine_a
                       zoon_a ["a"%byte] 0 "nodir" "-v" 1 He))
      as (b & b' & _ & _ & _ & Hopen & _); [simpl; lia|].
    destruct (Hopen ltac:(lia) FileNotFoundError eq_refl)
      as (s' & Hr & Hf & _).
    exists s'. split; assumption.
  - destruct (proj2 (mutate_and_run_contract runner joinpath machine_a
                       zoon_a ["a"%byte] 0 "/tmp" "-v" 1 He))
      as (b & b' & Hb & Hv & _ & _ & Hrun); [simpl; lia|].
    destruct (proj2 (Hrun ltac:(lia) eq_refl) eq_refl)
      as (s' & Hr & Hf & _).
    exists s'. split; [rewrite Hr; reflexivity|].
    simpl in Hb. injection Hb as <-.
    assert (b' = "225"%byte) as <-; [|exact Hf].
    apply byte_val_inj. rewrite Hv. vm_compute. reflexivity.
Defined.

(** ** Deleting in two steps *)

(** X18. Deletions compose: for [0 <= a <= b <= c <= n], deleting the
    bytes [a, b) and then, from the result, the next [c - b] bytes at [a],
    gives the bytes that deleting [a, c) at once gives. *)
Theorem delete_in_two_steps (w : world) (e : loc) (bs : list byte)
    (a b c : Z) :
  entity w e bs → 0 <= a <= b → b <= c → c <= Z.of_nat (length bs) →
  ∃ w1 m1 w2 m2 w3 m3 bs',
    Zoon.delete e a b w = (w1, inr m1) ∧
    Zoon.delete m1 a (a + (c - b)) w1 = (w2, inr m2) ∧
    Zoon.delete e a c w = (w3, inr m3) ∧
    entity w2 m2 bs' ∧ entity w3 m3 bs'.
Proof.
  intros He Hab Hbc Hcn.
  pose proof (delete_total w e bs a b He) as H1.
  rewrite slice_to_nonneg, slice_from_nonneg in H1 by lia.
  pose proof (delete_world_entity w e bs
                (take (Z.to_nat a) bs ++ drop (Z.to_nat b) bs)) as He1.
  pose proof (delete_total _ _ _ a (a + (c - b)) He1) as H2.
  rewrite slice_to_nonneg, slice_from_nonneg in H2 by lia.
  pose proof (delete_total w e bs a c He) as H3.
  rewrite slice_to_nonneg, slice_from_nonneg in H3 by lia.
  assert (length (take (Z.to_nat a) bs) = Z.to_nat a) as Hla.
  { rewrite length_take. lia. }
  rewrite take_app_length' in H2 by (symmetry; exact Hla).
  replace (Z.to_nat (a + (c - b)))
    with (Z.to_nat a + Z.to_nat (c - b))%nat in H2 by lia.
  rewrite drop_app_add' in H2 by (symmetry; exact Hla).
  rewrite drop_drop in H2.
  replace (Z.to_nat b + Z.to_nat (c - b))%nat with (Z.to_nat c) in H2
    by lia.
  eexists _, _, _, _, _, _, _. split; [exact H1|].
  split; [exact H2|]. split; [exact H3|].
  split; apply delete_world_entity.
Qed.

Lemma delete_in_two_steps_witness :
  ∃ w1 m1 w2 m2 w3 m3 bs',
    Zoon.delete zoon_a 0 0 world_a = (w1, inr m1) ∧
    Zoon.delete m1 0 (0 + (1 - 0)) w1 = (w2, inr m2) ∧
    Zoon.delete zoon_a 0 1 world_a = (w3, inr m3) ∧
    entity w2 m2 bs' ∧ entity w3 m3 bs'.
Proof.
  assert (entity world_a zoon_a ["a"%byte]) as He.
  { eexists. split; vm_compute; reflexivity. }
  apply (delete_in_two_steps world_a zoon_a ["a"%byte] 0 0 1 He).
  - lia.
  - lia.
  - simpl. lia.
Defined.
